(** * ilml: ion / ionic-liquid data model and featurization engine

    A shallow embedding of [ilml.chemistry], [ilml.featurization.combining_rules]
    and [ilml.featurization.featurizers], with the properties of the design
    document stated and proved over it.

    Python values are modelled as follows: [int] as [Z], [float] as the
    kernel's binary64 [float], [str] as [string], a [dict] whose order is
    observable as an association list in insertion order, a [dict] that is
    only read by key as a [gmap], an exception as a constructor of
    [exception] carried by [result]. *)

From Stdlib Require Import ZArith String Ascii List.
From Stdlib Require Import Floats.
From stdpp Require Import gmap strings list fin_maps pretty.

Local Open Scope string_scope.
Local Open Scope Z_scope.

(** ** Exceptions and fallible computations *)

(** The exceptions the modelled code can raise.  [ParseError] stands for
    the failure the toolkit calls end in on a notation the toolkit does
    not parse (the code itself names no such exception and raises none);
    [InvalidChargeError] is [ilml.exceptions.InvalidChargeError] with its
    message; the others are Python built-ins. *)
Inductive exception : Type :=
| ParseError
| InvalidChargeError (msg : string)
| ValueError
| TypeError
| KeyError (key : string)
| ZeroDivisionError
| OverflowError.

Inductive result (A : Type) : Type :=
| Ok (a : A)
| Raise (e : exception).
Arguments Ok {A} a.
Arguments Raise {A} e.

#[global] Instance result_ret : MRet result := fun A a => Ok a.
#[global] Instance result_bind : MBind result := fun A B k r =>
  match r with
  | Ok a => k a
  | Raise e => Raise e
  end.

Definition raises {A : Type} (r : result A) : Prop :=
  match r with Ok _ => False | Raise _ => True end.

(** ** Python numbers *)

(** [int -> float] conversion: correctly rounded to nearest-even, and
    [OverflowError] when the integer is beyond the binary64 range. *)
Definition int_to_float (z : Z) : result float :=
  match binary_normalize prec emax z 0 false with
  | S754_infinity _ => Raise OverflowError
  | sf => Ok (SF2Prim sf)
  end.

(** [x / y] on floats: Python raises where IEEE 754 returns an infinity. *)
Definition float_div (x y : float) : result float :=
  if (y =? 0)%float then Raise ZeroDivisionError else Ok (x / y)%float.

(** The built-ins [min(x, y)] and [max(x, y)] on two floats: the first
    argument is kept unless the second compares strictly below (above) it. *)
Definition py_min (x y : float) : float := if (y <? x)%float then y else x.
Definition py_max (x y : float) : float := if (x <? y)%float then y else x.

(** ** Python values and strings *)

(** A descriptor value as the toolkit hands it out ([dict[str, Any]]):
    undefined, a truth value, an integer, a float, a text, or any other
    object (one with neither [__float__] nor [__index__]). *)
Inductive PyValue : Type :=
| VNone
| VBool (b : bool)
| VInt (z : Z)
| VFloat (x : float)
| VStr (s : string)
| VObject.

(** [s.split(sep)] for a one-character separator. *)
Fixpoint split (sep : ascii) (s : string) : list string :=
  match s with
  | EmptyString => [EmptyString]
  | String c rest =>
      if Ascii.eqb c sep then EmptyString :: split sep rest
      else match split sep rest with
           | head :: tail => String c head :: tail
           | [] => [String c EmptyString]
           end
  end.

(** The format specification [{charge:+d}]: a sign, always, then the
    decimal digits. *)
Definition format_plus_d (z : Z) : string :=
  if z <? 0 then pretty z else "+" +:+ pretty z.

(** ** Python dicts in insertion order *)

Definition dict (V : Type) : Type := list (string * V).

Fixpoint dict_get {V : Type} (d : dict V) (name : string) : option V :=
  match d with
  | [] => None
  | (k, v) :: rest => if String.eqb k name then Some v else dict_get rest name
  end.

(** [d[name] = value]: an existing key keeps its place. *)
Fixpoint dict_set {V : Type} (name : string) (value : V) (d : dict V) : dict V :=
  match d with
  | [] => [(name, value)]
  | (k, v) :: rest =>
      if String.eqb k name then (k, value) :: rest
      else (k, v) :: dict_set name value rest
  end.

(** The keys of a dict are pairwise distinct. *)
Definition dict_wf {V : Type} (d : dict V) : Prop := NoDup d.*1.

(** [part] occurs in [msg]. *)
Definition includes (msg part : string) : Prop :=
  ∃ before after, msg = before +:+ part +:+ after.

(** ** The molecular-structure toolkit *)

(** The capabilities the code consumes from RDKit, taken as an interface.
    [MolFromSmiles] is [None] on a notation the toolkit rejects: the
    failure then raised by the toolkit calls of [from_smiles], before the
    constructor is reached, is modelled as [ParseError], the name the
    toolkit contract gives it.  [HasSubstructMatch mol smarts] stands for
    [mol.HasSubstructMatch(Chem.MolFromSmarts(smarts))].
    [CalcMolDescriptors] returns a new dict, listed here in insertion
    order: its keys are pairwise distinct. *)
Class Toolkit : Type := {
  Mol : Type;
  Mol_eq_dec :: EqDecision Mol;
  Mol_countable :: Countable Mol;
  MolFromSmiles : string -> option Mol;
  MolToSmiles : Mol -> bool -> string;
  GetFormalCharge : Mol -> Z;
  GetAtomSymbols : Mol -> list string;
  GetNumAtoms : Mol -> Z;
  MolWt : Mol -> float;
  HasSubstructMatch : Mol -> string -> bool;
  CalcMolDescriptors : Mol -> dict PyValue;
  CalcMolDescriptors_keys : forall mol, NoDup (CalcMolDescriptors mol).*1
}.

(** ** ilml.chemistry *)

(** The three dataclasses share their fields; the class of an instance
    selects [__post_init__] and the class-level pattern table. *)
Inductive ion_class : Type := IonClass | CationClass | AnionClass.

Definition Ion_family_smarts_patterns : list (string * list string) := [].

Definition Cation_family_smarts_patterns : list (string * list string) :=
  [ ("imidazolium", ["c1c[n+]cn1"]);
    ("pyrazolium", ["c1cn[n+]c1"]);
    ("triazolium", ["c1nnc[n+]1"; "c1c[n+]nn1"; "c1n[n+]cn1"]);
    ("thiazolium", ["c1csc[n+]1"]);
    ("quinlolinium", ["c1ccc2[n+]cccc2c1"; "c1ccc2c[n+]ccc2c1"]);
    ("pyridinium", ["c1cc[n+]cc1"]);
    ("pyrrolidinium", ["[#6]-1-[#6]-[#6]-[#7+]-[#6]-1"]);
    ("piperidinium", ["[#6]-1-[#6]-[#6]-[#7+]-[#6]-[#6]-1"]);
    ("piperazinium", ["[#6]-1-[#6]-[#7]-[#6]-[#6]-[#7]-1"]);
    ("morpholinium", ["[#6]-1-[#6]-[#8]-[#6]-[#6]-[#7+]-1"]);
    ("phosphonium", ["[#15+]"]);
    ("guanidinium", ["[#7]-[#6](-[#7])=[#7+]"]);
    ("amidium", ["[!#1!#6][#6]=[#7+]"]);
    ("ammonium", ["[#7+]"]);
    ("cyclopropenium", ["[#7]-[#6]1=,:[#6](-[#7])[#6+]1-[#7]"]);
    ("cyclic sulfonium",
      ["[#6]-1-[#6]-[#6]-[#16+]-[#6]-1"; "[#6]-1-[#6]-[#6]-[#16+]-[#6]-[#6]-1"]);
    ("sulfonium", ["[#16+]"]) ].

Definition Anion_family_smarts_patterns : list (string * list string) :=
  [ ("bistriflamides", ["O=S(=O)[#7-]S(=O)=O"; "[#7-]S(=O)=O"]);
    ("cyclic amides",
      ["c1c[n-]cn1"; "c1cn[n-]c1"; "c1nnn[n-]1"; "c1c[n-]nn1"; "c1nc[n-]n1";
       "c1cc[n-]c1"]);
    ("methanides", ["[#6-]"]);
    ("borates", ["[#5-]"]);
    ("phosphates", ["[#15-]"]);
    ("inorganics",
      ["[F,Cl,Br,I;-]"; "[#8-]-[#7+](-[#8-])=O"; "[#16-]C#N";
       "[#8-][Cl+3]([#8-])([#8-])[#8-]"; "[#7-]=[N+]=[#7-]"]);
    ("sulfates", ["[#8]S([#8-])(=O)=O"]);
    ("sulfonates", ["[#8-]S(=O)=O"]);
    ("organic phosphates",
      ["[#8]P([#8])([#8-])=O"; "[#8]-[#15](-[#8-])=O"; "[#8-]-[#15]=O"]);
    ("carboxylates", ["[#8-]-[#6]=O"]);
    ("phenolates", ["[#8-]-c:1:*:*:*:*:*:1"]);
    ("carboanions", ["[#8-]-[#6]=[#6]"]);
    ("amides", ["[#7-]"]) ].

Definition family_smarts_patterns (cls : ion_class) : list (string * list string) :=
  match cls with
  | IonClass => Ion_family_smarts_patterns
  | CationClass => Cation_family_smarts_patterns
  | AnionClass => Anion_family_smarts_patterns
  end.

Section chemistry.
Context `{T : Toolkit}.

Record Ion : Type := mkIon {
  ion_cls : ion_class;
  smiles : string;
  rdkit_mol : Mol
}.

Definition charge (self : Ion) : Z := GetFormalCharge (rdkit_mol self).
Definition element_set (self : Ion) : gset string :=
  list_to_set (GetAtomSymbols (rdkit_mol self)).
Definition atom_count (self : Ion) : Z := GetNumAtoms (rdkit_mol self).
Definition molecular_weight (self : Ion) : float := MolWt (rdkit_mol self).

(** The inner loop of [chemical_family]: is there a pattern of the list,
    taken in order, that the structure matches? *)
Fixpoint matches_any (mol : Mol) (smarts_patterns : list string) : bool :=
  match smarts_patterns with
  | [] => false
  | smart_pattern :: rest =>
      if HasSubstructMatch mol smart_pattern then true
      else matches_any mol rest
  end.

(** The outer loop over [family_smarts_patterns.items()]. *)
Fixpoint first_family (mol : Mol) (table : list (string * list string))
  : option string :=
  match table with
  | [] => None
  | (family_name, smarts_patterns) :: rest =>
      if matches_any mol smarts_patterns then Some family_name
      else first_family mol rest
  end.

(** The families declared in [before] match nothing of the structure. *)
Definition none_matches (mol : Mol) (before : list (string * list string)) : Prop :=
  Forall (fun entry => matches_any mol entry.2 = false) before.

Definition chemical_family (self : Ion) : option string :=
  first_family (rdkit_mol self) (family_smarts_patterns (ion_cls self)).

Definition Ion_post_init (self : Ion) : result unit :=
  if charge self =? 0
  then Raise (InvalidChargeError "ions must have a non-zero charge")
  else Ok tt.

Definition Cation_post_init (self : Ion) : result unit :=
  Ion_post_init self ;;
  let charge := charge self in
  if charge <? 0
  then Raise (InvalidChargeError
                ("cations must have a positive charge, got " +:+ format_plus_d charge))
  else Ok tt.

Definition Anion_post_init (self : Ion) : result unit :=
  Ion_post_init self ;;
  let charge := charge self in
  if charge >? 0
  then Raise (InvalidChargeError
                ("anions must have a negative charge, got " +:+ format_plus_d charge))
  else Ok tt.

Definition post_init (self : Ion) : result unit :=
  match ion_cls self with
  | IonClass => Ion_post_init self
  | CationClass => Cation_post_init self
  | AnionClass => Anion_post_init self
  end.

(** [cls(smiles, rdkit_mol)]: the dataclass constructor, which runs
    [__post_init__] on the new instance. *)
Definition new (cls : ion_class) (smiles : string) (rdkit_mol : Mol) : result Ion :=
  let self := mkIon cls smiles rdkit_mol in
  post_init self ;; Ok self.

Definition from_smiles (cls : ion_class) (smiles : string) : result Ion :=
  match MolFromSmiles smiles with
  | None => Raise ParseError
  | Some rdkit_molecule =>
      let smiles := MolToSmiles rdkit_molecule false in
      new cls smiles rdkit_molecule
  end.

Record IonicLiquid : Type := mkIonicLiquid {
  cation : Ion;
  anion : Ion
}.

Definition IonicLiquid_smiles (self : IonicLiquid) : string :=
  smiles (cation self) +:+ "." +:+ smiles (anion self).
Definition IonicLiquid_element_set (self : IonicLiquid) : gset string :=
  element_set (cation self) ∪ element_set (anion self).
Definition IonicLiquid_atom_count (self : IonicLiquid) : Z :=
  atom_count (cation self) + atom_count (anion self).
Definition IonicLiquid_molecular_weight (self : IonicLiquid) : float :=
  (molecular_weight (cation self) + molecular_weight (anion self))%float.

Definition IonicLiquid_from_smiles (smiles_ : string) : result IonicLiquid :=
  match split "." smiles_ with
  | [left_smiles; right_smiles] =>
      left_ion ← from_smiles IonClass left_smiles;
      right_ion ← from_smiles IonClass right_smiles;
      let '(left_ion, right_ion) :=
        if charge left_ion <? 0 then (right_ion, left_ion)
        else (left_ion, right_ion) in
      cation ← new CationClass (smiles left_ion) (rdkit_mol left_ion);
      anion ← new AnionClass (smiles right_ion) (rdkit_mol right_ion);
      Ok (mkIonicLiquid cation anion)
  | _ => Raise ValueError
  end.

End chemistry.

(** ** ilml.memory *)

Module memory.
Section cache.
Context {A : Type} `{Countable A} {R : Type}.

(** Modelled from the spec: the module [ilml.memory] (the [cache] wrapper) is
    not among the sources; only its uses [cache(CalcMolDescriptors)] and
    [cache(ilt.GetEntry)] are.  The design document describes it as a
    process-wide table of results keyed by the function identity and the
    argument as passed, never evicted, where a second call with an identical
    argument returns the stored result without invoking the function.

    The table of one wrapped function is modelled (the function identity
    selects the table), together with the log of the invocations of the
    underlying function. *)
Record Table : Type := mkTable {
  entries : gmap A R;
  invocations : list A
}.

Definition empty : Table := mkTable ∅ [].

(** Modelled from the spec: [cache(f)(a)], in state-passing style. *)
Definition cache (f : A -> R) (a : A) (t : Table) : R * Table :=
  match entries t !! a with
  | Some r => (r, t)
  | None =>
      let r := f a in
      (r, mkTable (<[a := r]> (entries t)) (a :: invocations t))
  end.

(** A run of calls of the wrapped function, oldest first; the results come
    back in the same order. *)
Fixpoint run (f : A -> R) (args : list A) (t : Table) : list R * Table :=
  match args with
  | [] => ([], t)
  | a :: rest =>
      let '(r, t1) := cache f a t in
      let '(rs, t2) := run f rest t1 in
      (r :: rs, t2)
  end.

(** A write to the table entry through a reference to the stored result:
    it applies where the stored result is the very object handed to the
    caller, which the design document neither says nor excludes. *)
Definition write_through (a : A) (r : R) (t : Table) : Table :=
  mkTable (<[a := r]> (entries t)) (invocations t).

(** How often the underlying function has been invoked on [a]. *)
Definition invocation_count (a : A) (t : Table) : nat :=
  length (filter (fun x => x = a) (invocations t)).

(** What holds of every table a run can produce: a stored result is the
    function's, and the function was invoked once on each stored argument
    and never on another. *)
Definition memo_invariant (f : A -> R) (t : Table) : Prop :=
  (∀ a r, entries t !! a = Some r → r = f a)
  ∧ (∀ a, invocation_count a t
          = match entries t !! a with Some _ => 1%nat | None => 0%nat end).

End cache.
Arguments Table A {_ _} R.
End memory.

(** ** ilml.featurization.combining_rules *)

Module CombiningRules.
Section rules.
Context `{T : Toolkit}.

Definition CombiningRule : Type := IonicLiquid -> float -> float -> result float.

Definition sum : CombiningRule := fun ionic_liquid cation_feature anion_feature =>
  Ok (cation_feature + anion_feature)%float.

Definition min_abs : CombiningRule := fun ionic_liquid cation_feature anion_feature =>
  Ok (py_min (abs cation_feature) (abs anion_feature)).

Definition max_abs : CombiningRule := fun ionic_liquid cation_feature anion_feature =>
  Ok (py_max (abs cation_feature) (abs anion_feature)).

Definition mean : CombiningRule := fun ionic_liquid cation_feature anion_feature =>
  Ok (0.5 * (cation_feature + anion_feature))%float.

(** The atom counts are [int]s: as operands of a float product or quotient
    they are converted to [float] first. *)
Definition mean_atom_count : CombiningRule :=
  fun ionic_liquid cation_feature anion_feature =>
  n_cation ← int_to_float (atom_count (cation ionic_liquid));
  n_anion ← int_to_float (atom_count (anion ionic_liquid));
  n ← int_to_float (IonicLiquid_atom_count ionic_liquid);
  float_div (n_cation * cation_feature + n_anion * anion_feature)%float n.

Definition mean_molecular_weight : CombiningRule :=
  fun ionic_liquid cation_feature anion_feature =>
  float_div
    (molecular_weight (cation ionic_liquid) * cation_feature
     + molecular_weight (anion ionic_liquid) * anion_feature)%float
    (IonicLiquid_molecular_weight ionic_liquid).

(** [@register]: [combining_rules.update({func.__name__: func})]. *)
Definition register (name : string) (func : CombiningRule)
  (registry : gmap string (option CombiningRule)) : gmap string (option CombiningRule) :=
  <[name := Some func]> registry.

(** The registry once the module is loaded. *)
Definition combining_rules : gmap string (option CombiningRule) :=
  register "mean_molecular_weight" mean_molecular_weight
    (register "mean_atom_count" mean_atom_count
      (register "mean" mean
        (register "max_abs" max_abs
          (register "min_abs" min_abs
            (register "sum" sum {["concatenate" := None]}))))).

End rules.
End CombiningRules.

(** ** ilml.featurization.featurizers *)

(** The table behind [rdkit_calc_mol_descriptors = cache(CalcMolDescriptors)]. *)
Definition Memory `{T : Toolkit} : Type := memory.Table Mol (dict PyValue).

Section featurizers.
Context `{T : Toolkit}.

(** [float(s)] on a text is the interpreter's literal parser, which is left
    abstract: [None] stands for [ValueError]. *)
Variable float_of_str : string -> option float.

(** The built-in [float(value)]. *)
Definition py_float (value : PyValue) : result float :=
  match value with
  | VNone => Raise TypeError
  | VBool b => Ok (if b then 1 else 0)%float
  | VInt z => int_to_float z
  | VFloat x => Ok x
  | VStr s =>
      match float_of_str s with
      | Some x => Ok x
      | None => Raise ValueError
      end
  | VObject => Raise TypeError
  end.

Definition rdkit_calc_mol_descriptors (mol : Mol) (t : Memory)
  : dict PyValue * Memory :=
  memory.cache CalcMolDescriptors mol t.

(** The dict object [_featurize] returns: either the one held by the
    memoization table under [key] (with its present content), or one that
    nothing else refers to.  The mapping [__call__] returns is the same
    for both; they differ in what the table holds afterwards. *)
Inductive features_object : Type :=
| Memoized (key : Mol) (features : dict PyValue)
| Owned (features : dict PyValue).

Definition content (obj : features_object) : dict PyValue :=
  match obj with
  | Memoized _ features => features
  | Owned features => features
  end.

(** The abstract base class: a subclass supplies [_featurize]. *)
Record IonFeaturizer : Type := mkIonFeaturizer {
  _featurize : Ion -> Memory -> features_object * Memory
}.

Definition RDKitIonFeaturizer : IonFeaturizer :=
  mkIonFeaturizer (fun ion t =>
    let '(features, t') := rdkit_calc_mol_descriptors (rdkit_mol ion) t in
    (Memoized (rdkit_mol ion) features, t')).

(** The body of the [try]: [float(value)], or [None] on [TypeError] and
    [ValueError]; any other exception leaves the [try] statement. *)
Definition coerce (value : PyValue) : result PyValue :=
  match py_float value with
  | Ok x => Ok (VFloat x)
  | Raise TypeError | Raise ValueError => Ok VNone
  | Raise e => Raise e
  end.

(** [for name, value in features.items(): features[name] = ...], over the
    items yet to visit; the dict comes back as the loop left it, also when
    an exception ended the loop. *)
Fixpoint coerce_loop (items : list (string * PyValue)) (features : dict PyValue)
  : result unit * dict PyValue :=
  match items with
  | [] => (Ok tt, features)
  | (name, value) :: rest =>
      match coerce value with
      | Ok v => coerce_loop rest (dict_set name v features)
      | Raise e => (Raise e, features)
      end
  end.

(** What the loop leaves in the place of [value] when [coerce] returns. *)
Definition coerced_value (value : PyValue) : PyValue :=
  match coerce value with
  | Ok v => v
  | Raise _ => value
  end.

Definition coerced (features : dict PyValue) : dict PyValue :=
  (fun '(name, value) => (name, coerced_value value)) <$> features.

(** No integer of the dict is beyond the binary64 range. *)
Definition no_overflow (features : dict PyValue) : Prop :=
  ∀ name z, (name, VInt z) ∈ features → int_to_float z ≠ Raise OverflowError.

Definition no_overflowb (features : dict PyValue) : bool :=
  forallb (fun '(_, value) =>
             match value with
             | VInt z => match int_to_float z with Ok _ => true | Raise _ => false end
             | _ => true
             end) features.

(** [{name: value for name, value in features.items() if value is not None}]
    with the values read as floats, which is what the loop leaves. *)
Definition not_None_items (features : dict PyValue) : gmap string float :=
  list_to_map
    (omap (fun '(name, value) =>
             match value with
             | VFloat x => Some (name, x)
             | _ => None
             end) features).

(** [IonFeaturizer.__call__]; a write to a memoized dict lands in the table. *)
Definition IonFeaturizer_call (self : IonFeaturizer) (ion : Ion) (t : Memory)
  : result (gmap string float) * Memory :=
  let '(obj, t1) := _featurize self ion t in
  let '(r, features) := coerce_loop (content obj) (content obj) in
  let t2 :=
    match obj with
    | Memoized key _ => memory.write_through key features t1
    | Owned _ => t1
    end in
  (r ;; Ok (not_None_items features), t2).

Record IonicLiquidFeaturizer : Type := mkIonicLiquidFeaturizer {
  ion_featurizer : IonFeaturizer;
  combining_rule : option CombiningRules.CombiningRule
}.

(** The [for name in feature_names] loop of mode A. *)
Fixpoint combine_loop (combining_rule : CombiningRules.CombiningRule)
  (ionic_liquid : IonicLiquid) (cation_features anion_features : gmap string float)
  (feature_names : list string) (ionic_liquid_features : gmap string float)
  : result (gmap string float) :=
  match feature_names with
  | [] => Ok ionic_liquid_features
  | name :: rest =>
      match cation_features !! name with
      | None => Raise (KeyError name)
      | Some cation_feature =>
          match anion_features !! name with
          | None =>
              combine_loop combining_rule ionic_liquid cation_features
                anion_features rest ionic_liquid_features
          | Some anion_feature =>
              value ← combining_rule ionic_liquid cation_feature anion_feature;
              combine_loop combining_rule ionic_liquid cation_features
                anion_features rest (<[name := value]> ionic_liquid_features)
          end
      end
  end.

(** The rule returns on every pair of values. *)
Definition returns (combining_rule : CombiningRules.CombiningRule)
  (ionic_liquid : IonicLiquid) : Prop :=
  ∀ c a, ∃ v, combining_rule ionic_liquid c a = Ok v.

(** The value mode A is meant to give a name: the rule applied to the two
    values, when both sides have one. *)
Definition combined_value (combining_rule : CombiningRules.CombiningRule)
  (ionic_liquid : IonicLiquid) (cation_features anion_features : gmap string float)
  (name : string) : option float :=
  cation_feature ← cation_features !! name;
  anion_feature ← anion_features !! name;
  match combining_rule ionic_liquid cation_feature anion_feature with
  | Ok value => Some value
  | Raise _ => None
  end.

(** Mode B: every feature, renamed by its side. *)
Definition concatenate (cation_features anion_features : gmap string float)
  : gmap string float :=
  list_to_map ((fun '(name, value) => (name +:+ "_anion", value))
                 <$> map_to_list anion_features)
  ∪ list_to_map ((fun '(name, value) => (name +:+ "_cation", value))
                   <$> map_to_list cation_features).

(** The part of [IonicLiquidFeaturizer.__call__] after the two ion
    featurizations. *)
Definition combine (combining_rule : option CombiningRules.CombiningRule)
  (ionic_liquid : IonicLiquid) (cation_features anion_features : gmap string float)
  : result (gmap string float) :=
  match combining_rule with
  | Some combining_rule =>
      let feature_names := dom cation_features ∪ dom anion_features in
      combine_loop combining_rule ionic_liquid cation_features anion_features
        (elements feature_names) ∅
  | None => Ok (concatenate cation_features anion_features)
  end.

Definition IonicLiquidFeaturizer_call (self : IonicLiquidFeaturizer)
  (ionic_liquid : IonicLiquid) (t : Memory)
  : result (gmap string float) * Memory :=
  let '(r_cation, t1) := IonFeaturizer_call (ion_featurizer self) (cation ionic_liquid) t in
  match r_cation with
  | Raise e => (Raise e, t1)
  | Ok cation_features =>
      let '(r_anion, t2) := IonFeaturizer_call (ion_featurizer self) (anion ionic_liquid) t1 in
      match r_anion with
      | Raise e => (Raise e, t2)
      | Ok anion_features =>
          (combine (combining_rule self) ionic_liquid cation_features anion_features, t2)
      end
  end.

End featurizers.

(** ** The combining-rule table of the design document

    [min] and [max] of the table, as relations on binary64 values: the
    result is one of the two arguments and bounds both. *)
Definition least_of (x y m : float) : Prop :=
  (m = x ∨ m = y) ∧ (m <=? x)%float = true ∧ (m <=? y)%float = true.

Definition greatest_of (x y m : float) : Prop :=
  (m = x ∨ m = y) ∧ (x <=? m)%float = true ∧ (y <=? m)%float = true.

(** ** A small toolkit instance

    A finite stand-in for RDKit, used to run the definitions on concrete
    ions: a structure is identified by its canonical notation. *)

Module Demo.

Record structure_data : Type := mkData {
  d_charge : Z;
  d_symbols : list string;
  d_atoms : Z;
  d_weight : float;
  d_matches : list string;
  d_descriptors : dict PyValue
}.

(** 1-methylpyridinium, chloride, tetrafluoroborate, sodium, ethanol. *)
Definition structures : list (string * structure_data) :=
  [ ("C[n+]1ccccc1",
      mkData 1 ["C"; "N"] 7 94.125 ["c1cc[n+]cc1"; "[#7+]"]
        [ ("MolWt", VFloat 94.125); ("NumHDonors", VInt 0);
          ("MaxPartialCharge", VFloat nan); ("Ipc", VNone);
          ("RingKind", VStr "aromatic") ]);
    ("[Cl-]",
      mkData (-1) ["Cl"] 1 35.5 ["[F,Cl,Br,I;-]"]
        [ ("MolWt", VFloat 35.5); ("NumHDonors", VInt 0);
          ("MaxPartialCharge", VFloat (-1)); ("Ipc", VFloat 0) ]);
    ("F[B-](F)(F)F",
      mkData (-1) ["F"; "B"] 5 86.75 ["[#5-]"]
        [ ("MolWt", VFloat 86.75) ]);
    ("[Na+]",
      mkData 1 ["Na"] 1 23 []
        [ ("MolWt", VFloat 23) ]);
    ("CCO",
      mkData 0 ["C"; "O"] 3 46 []
        [ ("MolWt", VFloat 46) ]) ].

(** Notations accepted besides the canonical ones. *)
Definition aliases : list (string * string) :=
  [ ("[n+]1(C)ccccc1", "C[n+]1ccccc1"); ("[B-](F)(F)(F)F", "F[B-](F)(F)F");
    ("OCC", "CCO") ].

Definition no_data : structure_data := mkData 0 [] 0 0 [] [].

Definition data (mol : string) : structure_data :=
  default no_data (dict_get structures mol).

Definition parse (notation : string) : option string :=
  match dict_get aliases notation with
  | Some canonical => Some canonical
  | None =>
      match dict_get structures notation with
      | Some _ => Some notation
      | None => None
      end
  end.

Lemma descriptors_keys (mol : string) : NoDup (d_descriptors (data mol)).*1.
Proof.
  assert (Hall : Forall (fun e => NoDup (d_descriptors e.2).*1) structures).
  { apply (bool_decide_unpack (Forall _ _)). vm_compute. exact I. }
  unfold data. destruct (dict_get structures mol) as [d|] eqn:Hd; [|constructor].
  rewrite Forall_forall in Hall. apply (Hall (mol, d)).
  clear Hall. revert Hd. generalize structures. intros l.
  induction l as [|[k v] l IH]; simpl; [done|].
  destruct (String.eqb_spec k mol) as [->|_].
  - intros [= ->]. left.
  - intros Hd. right. by apply IH.
Qed.

Definition toolkit : Toolkit := {|
  Mol := string;
  MolFromSmiles := parse;
  MolToSmiles := fun mol _ => mol;
  GetFormalCharge := fun mol => d_charge (data mol);
  GetAtomSymbols := fun mol => d_symbols (data mol);
  GetNumAtoms := fun mol => d_atoms (data mol);
  MolWt := fun mol => d_weight (data mol);
  HasSubstructMatch := fun mol smarts => bool_decide (smarts ∈ d_matches (data mol));
  CalcMolDescriptors := fun mol => d_descriptors (data mol);
  CalcMolDescriptors_keys := descriptors_keys
|}.

(** A literal parser knowing two literals. *)
Definition float_of_str (s : string) : option float :=
  if String.eqb s "nan" then Some nan
  else if String.eqb s "1.5" then Some 1.5%float
  else None.

Definition methylpyridinium : @Ion toolkit :=
  mkIon CationClass "C[n+]1ccccc1" ("C[n+]1ccccc1" : @Mol toolkit).
Definition chloride : @Ion toolkit :=
  mkIon AnionClass "[Cl-]" ("[Cl-]" : @Mol toolkit).
Definition methylpyridinium_chloride : @IonicLiquid toolkit :=
  mkIonicLiquid methylpyridinium chloride.

(** An [IonFeaturizer] subclass whose [_featurize] builds a new dict on
    every call: [{"A": 1.0}] for a cation, [{"A": 2.0, "B": 3.0}] for an
    anion. *)
Definition table_featurizer : @IonFeaturizer toolkit :=
  mkIonFeaturizer (fun ion t =>
    (Owned (if @charge toolkit ion <? 0
            then [("A", VFloat 2); ("B", VFloat 3)]
            else [("A", VFloat 1)]), t)).

End Demo.

(** ** Charges a class admits

    What the [__post_init__] chain of a class lets through. *)
Definition charge_admitted (cls : ion_class) (z : Z) : Prop :=
  match cls with
  | IonClass => z ≠ 0
  | CationClass => 0 < z
  | AnionClass => z < 0
  end.

(** The pair built from a positive and a negative structure. *)
Definition paired `{T : Toolkit} (positive negative : Mol) : IonicLiquid :=
  mkIonicLiquid (mkIon CationClass (MolToSmiles positive false) positive)
                (mkIon AnionClass (MolToSmiles negative false) negative).

(** ** Structure objects and [==]

    [Chem.MolFromSmiles] builds a new [Chem.Mol] object at each call, and
    [Chem.Mol] does not define [__eq__]: two structure objects are [==]
    only when they are one object.  The [__eq__] that [@dataclass]
    generates compares the fields of two instances of one class.  Where a
    property depends on [==], an instance is taken with the object its
    field refers to: a structure, and the address that tells the object
    from every other one. *)
Module Objects.
Section objects.
Context `{T : Toolkit}.

Record Mol_object : Type := mkMol_object {
  address : nat;
  structure : Mol
}.

(** [Chem.MolFromSmiles(smiles)]: [next] is the first address not in use. *)
Definition MolFromSmiles_new (smiles : string) (next : nat)
  : option Mol_object * nat :=
  match MolFromSmiles smiles with
  | None => (None, next)
  | Some mol => (Some (mkMol_object next mol), S next)
  end.

(** An instance of [Ion], [Cation] or [Anion]: the fields [smiles] and
    [rdkit_mol]. *)
Record Ion_object : Type := mkIon_object {
  class_of : ion_class;
  smiles_of : string;
  rdkit_mol_of : Mol_object
}.

(** What an instance holds, the identity of its structure object left out. *)
Definition content_of (self : Ion_object) : Ion :=
  mkIon (class_of self) (smiles_of self) (structure (rdkit_mol_of self)).

Definition charge (self : Ion_object) : Z :=
  GetFormalCharge (structure (rdkit_mol_of self)).

Definition new (cls : ion_class) (smiles : string) (rdkit_mol : Mol_object)
  : result Ion_object :=
  let self := mkIon_object cls smiles rdkit_mol in
  post_init (content_of self) ;; Ok self.

Definition from_smiles (cls : ion_class) (smiles : string) (next : nat)
  : result Ion_object * nat :=
  match MolFromSmiles_new smiles next with
  | (None, next) => (Raise ParseError, next)
  | (Some rdkit_molecule, next) =>
      let smiles := MolToSmiles (structure rdkit_molecule) false in
      (new cls smiles rdkit_molecule, next)
  end.

Record IonicLiquid_object : Type := mkIonicLiquid_object {
  cation_of : Ion_object;
  anion_of : Ion_object
}.

Definition content (self : IonicLiquid_object) : IonicLiquid :=
  mkIonicLiquid (content_of (cation_of self)) (content_of (anion_of self)).

(** [Cation(left_ion.smiles, left_ion.rdkit_mol)] refers to the structure
    object of [left_ion]: no object is built after the two parses. *)
Definition IonicLiquid_from_smiles (smiles_ : string) (next : nat)
  : result IonicLiquid_object * nat :=
  match split "." smiles_ with
  | [left_smiles; right_smiles] =>
      let '(r_left, next) := from_smiles IonClass left_smiles next in
      match r_left with
      | Raise e => (Raise e, next)
      | Ok left_ion =>
          let '(r_right, next) := from_smiles IonClass right_smiles next in
          match r_right with
          | Raise e => (Raise e, next)
          | Ok right_ion =>
              let '(left_ion, right_ion) :=
                if charge left_ion <? 0 then (right_ion, left_ion)
                else (left_ion, right_ion) in
              (cation ← new CationClass (smiles_of left_ion) (rdkit_mol_of left_ion);
               anion ← new AnionClass (smiles_of right_ion) (rdkit_mol_of right_ion);
               Ok (mkIonicLiquid_object cation anion), next)
          end
      end
  | _ => (Raise ValueError, next)
  end.

(** [other.__class__ is self.__class__]. *)
Definition same_class (x y : ion_class) : bool :=
  match x, y with
  | IonClass, IonClass | CationClass, CationClass | AnionClass, AnionClass => true
  | _, _ => false
  end.

(** [x == y] on structure objects: [object.__eq__], identity. *)
Definition Mol_eq (x y : Mol_object) : bool := Nat.eqb (address x) (address y).

(** [x == y] on ions: the generated [__eq__], which compares
    [(smiles, rdkit_mol)] when the classes are the same and is [False]
    otherwise. *)
Definition Ion_eq (x y : Ion_object) : bool :=
  same_class (class_of x) (class_of y)
  && String.eqb (smiles_of x) (smiles_of y)
  && Mol_eq (rdkit_mol_of x) (rdkit_mol_of y).

(** [x == y] on ionic liquids: [(cation, anion)] compared. *)
Definition IonicLiquid_eq (x y : IonicLiquid_object) : bool :=
  Ion_eq (cation_of x) (cation_of y) && Ion_eq (anion_of x) (anion_of y).

(** The pair built on a positive and a negative structure object. *)
Definition paired (positive negative : Mol_object) : IonicLiquid_object :=
  mkIonicLiquid_object
    (mkIon_object CationClass (MolToSmiles (structure positive) false) positive)
    (mkIon_object AnionClass (MolToSmiles (structure negative) false) negative).

End objects.
End Objects.

(** ** A toolkit with a descriptor beyond the float range

    Every notation is a structure of charge +1 whose descriptors hold an
    integer too large for a float, between two ordinary values. *)
Module Heavy.

Definition descriptors : dict PyValue :=
  [ ("NumAtoms", VInt 3); ("Huge", VInt (10 ^ 400)); ("Label", VStr "x") ].

Lemma heavy_descriptors_keys (mol : string) : NoDup descriptors.*1.
Proof. apply (bool_decide_unpack (NoDup _)). vm_compute. exact I. Qed.

Definition toolkit : Toolkit := {|
  Mol := string;
  MolFromSmiles := fun notation => Some notation;
  MolToSmiles := fun mol _ => mol;
  GetFormalCharge := fun _ => 1;
  GetAtomSymbols := fun _ => [];
  GetNumAtoms := fun _ => 1;
  MolWt := fun _ => 1%float;
  HasSubstructMatch := fun _ _ => false;
  CalcMolDescriptors := fun _ => descriptors;
  CalcMolDescriptors_keys := heavy_descriptors_keys
|}.

Definition ion : @Ion toolkit := mkIon CationClass "[K+]" ("[K+]" : @Mol toolkit).

End Heavy.

(** A value the coercion loop leaves as it is: a float or [None]. *)
Definition float_or_None (value : PyValue) : Prop :=
  value = VNone ∨ ∃ x, value = VFloat x.

(** [RDKitIonFeaturizer] again, over a cache that keeps what it stores out
    of the caller's reach (one that hands out a copy of the stored dict,
    or keeps it serialized): the dict [_featurize] returns is then one
    that nothing else refers to.  Neither the sources nor the design
    document say whether [ilml.memory.cache] hands out the stored dict
    itself, which is what [RDKitIonFeaturizer] takes it to do; a property
    of repeated featurization is stated for both. *)
Definition RDKitIonFeaturizer_detached `{T : Toolkit} : IonFeaturizer :=
  mkIonFeaturizer (fun ion t =>
    let '(features, t') := rdkit_calc_mol_descriptors (rdkit_mol ion) t in
    (Owned features, t')).

(** ** ilml.dataset

    [ILMLDataset] over an abstract entry of the property database: the
    code reads its [id] and the full citation of its [ref]; the two
    abstract static methods and the database client [ilt.GetEntry] are
    taken as functions.  [get_data], which hands the entries to pandas,
    is left out. *)
Module Dataset.

(** The exceptions of the dataset layer: [LookupError] (its message is
    formatted from the id looked for), [ILTEntryProcessingError], and any
    other exception a subclass's [process_ilt_entry] lets escape. *)
Inductive error : Type :=
| LookupError (entry_id : string)
| ILTEntryProcessingError (msg : string)
| OtherError (e : exception).

Inductive outcome (A : Type) : Type :=
| Returns (a : A)
| Raises (e : error).
Arguments Returns {A} a.
Arguments Raises {A} e.

Section dataset.
Context {ILTEntry : Type}.
Variable entry_id : ILTEntry -> string.
Variable ref_full : ILTEntry -> string.

(** [ilml.entry.ILMLEntry]: a wrapper of the database entry. *)
Record ILMLEntry : Type := mkILMLEntry { ilt_entry : ILTEntry }.

Definition id (self : ILMLEntry) : string := entry_id (ilt_entry self).

Fixpoint get_entry (entries : list ILMLEntry) (wanted : string) : outcome ILMLEntry :=
  match entries with
  | [] => Raises (LookupError wanted)
  | entry :: rest =>
      if String.eqb (id entry) wanted then Returns entry
      else get_entry rest wanted
  end.

(** [get_references] returns the dict it fills, [references], not the data
    frame it builds from it. *)
Definition get_references (entries : list ILMLEntry) : gmap string string :=
  foldl (fun references entry => <[id entry := ref_full (ilt_entry entry)]> references)
        ∅ entries.

Variable GetEntry : string -> ILTEntry.
Variable process_ilt_entry : ILTEntry -> outcome ILTEntry.

(** [_populate], over the ids still to fetch: [self.entries] and the table
    behind [ilt_get_entry = cache(ilt.GetEntry)] are threaded through. *)
Fixpoint populate (ilt_entry_ids : list string) (entries : list ILMLEntry)
  (t : memory.Table string ILTEntry)
  : outcome (list ILMLEntry) * memory.Table string ILTEntry :=
  match ilt_entry_ids with
  | [] => (Returns entries, t)
  | ilt_entry_id :: rest =>
      let '(fetched, t1) := memory.cache GetEntry ilt_entry_id t in
      match process_ilt_entry fetched with
      | Returns processed =>
          populate rest (entries ++ [mkILMLEntry processed])%list t1
      | Raises (ILTEntryProcessingError _) => populate rest entries t1
      | Raises e => (Raises e, t1)
      end
  end.

(** The entry an id contributes, if its processing returns. *)
Definition kept (ilt_entry_id : string) : option ILMLEntry :=
  match process_ilt_entry (GetEntry ilt_entry_id) with
  | Returns processed => Some (mkILMLEntry processed)
  | Raises _ => None
  end.

(** The processing of the id returns or asks to skip the entry. *)
Definition processable (ilt_entry_id : string) : Prop :=
  match process_ilt_entry (GetEntry ilt_entry_id) with
  | Returns _ | Raises (ILTEntryProcessingError _) => True
  | Raises _ => False
  end.

End dataset.
End Dataset.

(** A small database: an entry is its id and its citation; the processing
    skips the entry "mix" and fails on the entry "bad". *)
Module DemoDataset.

Definition entry_id (e : string * string) : string := e.1.
Definition ref_full (e : string * string) : string := e.2.
Definition GetEntry (ilt_entry_id : string) : string * string :=
  (ilt_entry_id, "ref. of " +:+ ilt_entry_id).
Definition process_ilt_entry (e : string * string) : Dataset.outcome (string * string) :=
  if String.eqb e.1 "mix" then Dataset.Raises (Dataset.ILTEntryProcessingError "mixture")
  else if String.eqb e.1 "bad" then Dataset.Raises (Dataset.OtherError ValueError)
  else Dataset.Returns e.

End DemoDataset.

(** [float] accepts the value the dict gives the name. *)
Definition accepted (float_of_str : string -> option float)
  (features : dict PyValue) (name : string) : Prop :=
  ∃ value x, dict_get features name = Some value
             ∧ py_float float_of_str value = Ok x.

(** * Properties *)

(** ** The built-ins, on examples *)

Example split_examples :
  split "." "CC[N+].[Cl-]" = ["CC[N+]"; "[Cl-]"]
  ∧ split "." "" = [""]
  ∧ split "." "a..b" = ["a"; ""; "b"]
  ∧ split "." "a." = ["a"; ""].
Proof. repeat split; reflexivity. Qed.

Example format_plus_d_examples :
  format_plus_d 2 = "+2" ∧ format_plus_d (-13) = "-13" ∧ format_plus_d 0 = "+0".
Proof. repeat split; reflexivity. Qed.

Example int_to_float_examples :
  int_to_float 3 = Ok 3%float
  ∧ int_to_float (-7) = Ok (-7)%float
  ∧ int_to_float (2 ^ 53 + 1) = Ok 9007199254740992%float
  ∧ int_to_float (10 ^ 400) = Raise OverflowError.
Proof. repeat split; vm_compute; reflexivity. Qed.

Example float_div_examples :
  float_div 1 4 = Ok 0.25%float
  ∧ float_div 1 0 = Raise ZeroDivisionError
  ∧ float_div 1 (-0) = Raise ZeroDivisionError.
Proof. repeat split; reflexivity. Qed.

(** With a NaN the built-ins depend on the order of their arguments. *)
Example py_min_nan : py_min nan 1 = nan ∧ py_min 1 nan = 1%float.
Proof. split; reflexivity. Qed.

(** ** Strings *)

Lemma split_nonempty (sep : ascii) (s : string) : split sep s ≠ [].
Proof.
  destruct s as [|c rest]; simpl; [done|].
  destruct (Ascii.eqb c sep); [done|].
  destruct (split sep rest); done.
Qed.

Lemma split_app (sep : ascii) (x y : string) :
  split sep (x +:+ String sep y) = (split sep x ++ split sep y)%list.
Proof.
  induction x as [|c x IH]; simpl.
  - by rewrite Ascii.eqb_refl.
  - destruct (Ascii.eqb c sep); [by rewrite IH|].
    rewrite IH. pose proof (split_nonempty sep x) as Hne.
    destruct (split sep x); done.
Qed.

Lemma split_singleton (sep : ascii) (s : string) :
  length (split sep s) = 1%nat → split sep s = [s].
Proof.
  induction s as [|c s IH]; simpl; [done|].
  destruct (Ascii.eqb c sep).
  - pose proof (split_nonempty sep s). destruct (split sep s); simpl; [done|lia].
  - destruct (split sep s) as [|h tl] eqn:E; [by destruct (split_nonempty sep s)|].
    simpl. intros Hlen. specialize (IH Hlen). by simplify_eq.
Qed.

Lemma split_length_pos (sep : ascii) (s : string) : (1 ≤ length (split sep s))%nat.
Proof.
  pose proof (split_nonempty sep s). destruct (split sep s); simpl; [done|lia].
Qed.

Lemma format_plus_d_negative (z : Z) :
  z < 0 → format_plus_d z = pretty z ∧ ∃ digits, format_plus_d z = "-" +:+ digits.
Proof.
  intros Hz. unfold format_plus_d.
  destruct (Z.ltb_spec z 0); [|lia].
  split; [done|]. destruct z as [|p|p]; try lia. by eexists.
Qed.

Lemma format_plus_d_nonnegative (z : Z) :
  0 ≤ z → format_plus_d z = "+" +:+ pretty z.
Proof.
  intros Hz. unfold format_plus_d. by destruct (Z.ltb_spec z 0); [lia|].
Qed.

(** The rendering determines the number. *)
Lemma format_plus_d_inj (x y : Z) : format_plus_d x = format_plus_d y → x = y.
Proof.
  unfold format_plus_d.
  destruct (Z.ltb_spec x 0) as [Hx|Hx], (Z.ltb_spec y 0) as [Hy|Hy].
  - apply (inj pretty).
  - destruct x as [|p|p]; try lia. discriminate.
  - destruct y as [|p|p]; try lia. discriminate.
  - intros Heq. apply (inj pretty). by simplify_eq/=.
Qed.

Lemma string_app_empty_r (s : string) : s +:+ "" = s.
Proof. induction s as [|c s IH]; [done|]. change (String c (s +:+ "") = String c s). by rewrite IH. Qed.

Lemma includes_suffix (before part : string) : includes (before +:+ part) part.
Proof. exists before, "". by rewrite string_app_empty_r. Qed.

(** ** Construction and charge validation *)

Section chemistry_properties.
Context `{T : Toolkit}.

Lemma new_zero_charge (cls : ion_class) (notation : string) (mol : Mol) :
  GetFormalCharge mol = 0 →
  new cls notation mol = Raise (InvalidChargeError "ions must have a non-zero charge").
Proof.
  intros Hc. unfold new, post_init, Cation_post_init, Anion_post_init, Ion_post_init, charge.
  destruct cls; simpl; rewrite Hc; reflexivity.
Qed.

Lemma new_Ion_ok (notation : string) (mol : Mol) :
  GetFormalCharge mol ≠ 0 →
  new IonClass notation mol = Ok (mkIon IonClass notation mol).
Proof.
  intros Hc. unfold new, post_init, Ion_post_init, charge. simpl.
  by destruct (Z.eqb_spec (GetFormalCharge mol) 0).
Qed.

Lemma new_Cation_ok (notation : string) (mol : Mol) :
  0 < GetFormalCharge mol →
  new CationClass notation mol = Ok (mkIon CationClass notation mol).
Proof.
  intros Hc. unfold new, post_init, Cation_post_init, Ion_post_init, charge. simpl.
  destruct (Z.eqb_spec (GetFormalCharge mol) 0); [lia|]. simpl.
  by destruct (Z.ltb_spec (GetFormalCharge mol) 0); [lia|].
Qed.

Lemma new_Anion_ok (notation : string) (mol : Mol) :
  GetFormalCharge mol < 0 →
  new AnionClass notation mol = Ok (mkIon AnionClass notation mol).
Proof.
  intros Hc. unfold new, post_init, Anion_post_init, Ion_post_init, charge. simpl.
  destruct (Z.eqb_spec (GetFormalCharge mol) 0); [lia|]. simpl.
  destruct (Z.gtb_spec (GetFormalCharge mol) 0); [lia|done].
Qed.

Lemma new_Cation_negative (notation : string) (mol : Mol) :
  GetFormalCharge mol < 0 →
  new CationClass notation mol =
    Raise (InvalidChargeError
             ("cations must have a positive charge, got "
              +:+ format_plus_d (GetFormalCharge mol))).
Proof.
  intros Hc. unfold new, post_init, Cation_post_init, Ion_post_init, charge. simpl.
  destruct (Z.eqb_spec (GetFormalCharge mol) 0); [lia|]. simpl.
  by destruct (Z.ltb_spec (GetFormalCharge mol) 0); [|lia].
Qed.

Lemma new_Anion_positive (notation : string) (mol : Mol) :
  0 < GetFormalCharge mol →
  new AnionClass notation mol =
    Raise (InvalidChargeError
             ("anions must have a negative charge, got "
              +:+ format_plus_d (GetFormalCharge mol))).
Proof.
  intros Hc. unfold new, post_init, Anion_post_init, Ion_post_init, charge. simpl.
  destruct (Z.eqb_spec (GetFormalCharge mol) 0); [lia|]. simpl.
  destruct (Z.gtb_spec (GetFormalCharge mol) 0); [done|lia].
Qed.

Lemma from_smiles_parsed (cls : ion_class) (notation : string) (mol : Mol) :
  MolFromSmiles notation = Some mol →
  from_smiles cls notation = new cls (MolToSmiles mol false) mol.
Proof. intros Hp. unfold from_smiles. by rewrite Hp. Qed.

Lemma from_smiles_Ion_ok (notation : string) (ion : Ion) :
  from_smiles IonClass notation = Ok ion →
  ∃ mol, MolFromSmiles notation = Some mol
         ∧ GetFormalCharge mol ≠ 0
         ∧ ion = mkIon IonClass (MolToSmiles mol false) mol.
Proof.
  unfold from_smiles. destruct (MolFromSmiles notation) as [mol|]; [|done].
  intros Hnew. exists mol. split; [done|].
  destruct (decide (GetFormalCharge mol = 0)) as [Hz|Hnz].
  - by rewrite new_zero_charge in Hnew.
  - rewrite new_Ion_ok in Hnew by done. by simplify_eq.
Qed.

(** C5. Constructing an [Ion] (of any class) from a structure of formal
    charge 0 fails with [InvalidChargeError]; so does constructing a
    [Cation] from a negatively charged structure and an [Anion] from a
    positively charged one, and in these two cases the message ends with
    the charge rendered with its sign. *)
Theorem invalid_charge_is_rejected (notation : string) (mol : Mol) :
  (GetFormalCharge mol = 0 →
   ∀ cls, new cls notation mol
          = Raise (InvalidChargeError "ions must have a non-zero charge"))
  ∧ (GetFormalCharge mol < 0 →
     ∃ msg digits,
       new CationClass notation mol = Raise (InvalidChargeError msg)
       ∧ includes msg (format_plus_d (GetFormalCharge mol))
       ∧ format_plus_d (GetFormalCharge mol) = "-" +:+ digits)
  ∧ (0 < GetFormalCharge mol →
     ∃ msg,
       new AnionClass notation mol = Raise (InvalidChargeError msg)
       ∧ includes msg (format_plus_d (GetFormalCharge mol))
       ∧ format_plus_d (GetFormalCharge mol) = "+" +:+ pretty (GetFormalCharge mol)).
Proof.
  split; [|split].
  - intros Hz cls. by apply new_zero_charge.
  - intros Hneg. destruct (format_plus_d_negative _ Hneg) as [_ [digits Hd]].
    eexists _, digits. split; [by apply new_Cation_negative|].
    split; [apply includes_suffix|done].
  - intros Hpos. eexists. split; [by apply new_Anion_positive|].
    split; [apply includes_suffix|]. apply format_plus_d_nonnegative. lia.
Qed.

End chemistry_properties.

(** On the demo toolkit: sodium as an anion, chloride as a cation, ethanol
    as an ion. *)
Lemma invalid_charge_is_rejected_witness :
  (∃ msg, @new Demo.toolkit AnionClass "[Na+]" "[Na+]" = Raise (InvalidChargeError msg)
          ∧ includes msg "+1")
  ∧ (∃ msg, @new Demo.toolkit CationClass "[Cl-]" "[Cl-]" = Raise (InvalidChargeError msg)
            ∧ includes msg "-1")
  ∧ @new Demo.toolkit IonClass "CCO" "CCO"
    = Raise (InvalidChargeError "ions must have a non-zero charge").
Proof.
  pose proof (@invalid_charge_is_rejected Demo.toolkit "[Na+]" "[Na+]") as (_ & _ & Hna).
  pose proof (@invalid_charge_is_rejected Demo.toolkit "[Cl-]" "[Cl-]") as (_ & Hcl & _).
  pose proof (@invalid_charge_is_rejected Demo.toolkit "CCO" "CCO") as (Hzero & _ & _).
  split; [|split].
  - destruct Hna as (msg & Hmsg & Hinc & _); [reflexivity|]. by exists msg.
  - destruct Hcl as (msg & digits & Hmsg & Hinc & _); [reflexivity|]. by exists msg.
  - apply Hzero. reflexivity.
Defined.

(** ** Chemical-family classification *)

Section classification.
Context `{T : Toolkit}.

Lemma matches_any_true (mol : Mol) (patterns : list string) :
  matches_any mol patterns = true
  ↔ ∃ p, p ∈ patterns ∧ HasSubstructMatch mol p = true.
Proof.
  induction patterns as [|q patterns IH]; simpl.
  - split; [done|]. intros (p & Hin & _). by apply elem_of_nil in Hin.
  - destruct (HasSubstructMatch mol q) eqn:Hq.
    + split; [|done]. intros _. exists q. split; [left|done].
    + rewrite IH. split.
      * intros (p & Hin & Hp). exists p. split; [by right|done].
      * intros (p & Hin & Hp). apply elem_of_cons in Hin as [->|Hin]; [congruence|].
        by exists p.
Qed.

Lemma matches_any_false (mol : Mol) (patterns : list string) :
  matches_any mol patterns = false
  ↔ ∀ p, p ∈ patterns → HasSubstructMatch mol p = false.
Proof.
  split.
  - intros Hno p Hin. destruct (HasSubstructMatch mol p) eqn:Hp; [|done].
    assert (matches_any mol patterns = true) by (apply matches_any_true; eauto).
    congruence.
  - intros Hall. destruct (matches_any mol patterns) eqn:Hm; [|done].
    apply matches_any_true in Hm as (p & Hin & Hp). rewrite Hall in Hp; done.
Qed.

Lemma first_family_Some (mol : Mol) (table : list (string * list string))
  (family : string) :
  first_family mol table = Some family
  ↔ ∃ before patterns after,
      table = (before ++ (family, patterns) :: after)%list
      ∧ matches_any mol patterns = true
      ∧ none_matches mol before.
Proof.
  induction table as [|[name patterns] table IH]; simpl.
  - split; [done|]. intros (before & ? & ? & Heq & _). by destruct before.
  - destruct (matches_any mol patterns) eqn:Hm.
    + split.
      * intros [= <-]. exists [], patterns, table. repeat split; [done|constructor].
      * intros (before & ps & after & Heq & Hps & Hnone).
        destruct before as [|[n0 p0] before]; simplify_eq/=; [done|].
        apply Forall_cons in Hnone as [Hhd _]. simpl in Hhd. congruence.
    + rewrite IH. split.
      * intros (before & ps & after & -> & Hps & Hnone).
        exists ((name, patterns) :: before), ps, after.
        repeat split; [done|]. by constructor.
      * intros (before & ps & after & Heq & Hps & Hnone).
        destruct before as [|[n0 p0] before]; simplify_eq/=; [congruence|].
        apply Forall_cons in Hnone as [_ Htl]. by exists before, ps, after.
Qed.

Lemma first_family_None (mol : Mol) (table : list (string * list string)) :
  first_family mol table = None ↔ none_matches mol table.
Proof.
  unfold none_matches. induction table as [|[name patterns] table IH]; simpl.
  - split; [constructor|done].
  - destruct (matches_any mol patterns) eqn:Hm.
    + split; [done|]. intros Hall. apply Forall_cons in Hall as [Hhd _].
      simpl in Hhd. congruence.
    + rewrite IH. split; [by constructor|]. intros Hall.
      by apply Forall_cons in Hall as [_ ?].
Qed.

(** A family declared after a matching one is never the answer. *)
Lemma first_family_earlier_wins (mol : Mol) (table : list (string * list string))
  (i j : nat) (F1 F2 : string) (ps1 ps2 : list string) :
  NoDup table.*1 →
  table !! i = Some (F1, ps1) → table !! j = Some (F2, ps2) → (i < j)%nat →
  matches_any mol ps1 = true →
  first_family mol table ≠ Some F2.
Proof.
  intros Hnd Hi Hj Hlt Hm1 Hres.
  apply first_family_Some in Hres as (before & ps & after & -> & Hps & Hnone).
  assert (Hk : (before ++ (F2, ps) :: after)%list !! length before = Some (F2, ps)).
  { by rewrite list_lookup_middle. }
  assert (j = length before) as ->.
  { eapply NoDup_lookup; [exact Hnd| |].
    - rewrite list_lookup_fmap, Hj. done.
    - rewrite list_lookup_fmap, Hk. done. }
  rewrite lookup_app_l in Hi by done.
  unfold none_matches in Hnone. rewrite Forall_lookup in Hnone.
  specialize (Hnone _ _ Hi). simpl in Hnone. congruence.
Qed.

Lemma family_smarts_patterns_NoDup (cls : ion_class) :
  NoDup (family_smarts_patterns cls).*1.
Proof.
  destruct cls;
    apply (bool_decide_unpack (NoDup _)); vm_compute; exact I.
Qed.

(** C6. [chemical_family] walks the class's pattern table in declaration
    order and each pattern list in order, and answers the first family one
    of whose patterns the structure matches; it answers [None] exactly when
    no pattern of the table matches; hence when a family [F1] matches, no
    family [F2] declared after it is ever the answer. *)
Theorem chemical_family_first_match (self : Ion) :
  let table := family_smarts_patterns (ion_cls self) in
  let mol := rdkit_mol self in
  (∀ family,
     chemical_family self = Some family
     ↔ ∃ before patterns after,
         table = (before ++ (family, patterns) :: after)%list
         ∧ (∃ p, p ∈ patterns ∧ HasSubstructMatch mol p = true)
         ∧ (∀ name ps p, (name, ps) ∈ before → p ∈ ps →
                         HasSubstructMatch mol p = false))
  ∧ (chemical_family self = None
     ↔ ∀ name ps p, (name, ps) ∈ table → p ∈ ps → HasSubstructMatch mol p = false)
  ∧ (∀ i j F1 F2 ps1 ps2 p,
       table !! i = Some (F1, ps1) → table !! j = Some (F2, ps2) → (i < j)%nat →
       p ∈ ps1 → HasSubstructMatch mol p = true →
       chemical_family self ≠ Some F2).
Proof.
  intros table mol. unfold chemical_family. fold table mol.
  assert (Hnone : ∀ l, none_matches mol l
            ↔ ∀ name ps p, (name, ps) ∈ l → p ∈ ps → HasSubstructMatch mol p = false).
  { intros l. unfold none_matches. rewrite Forall_forall. split.
    - intros Hall name ps p Hin Hp.
      specialize (Hall _ Hin). simpl in Hall.
      rewrite matches_any_false in Hall. by apply Hall.
    - intros Hall [name ps] Hin. simpl. apply matches_any_false.
      intros p Hp. by eapply Hall. }
  split; [|split].
  - intros family. rewrite first_family_Some.
    split; intros (before & ps & after & Heq & Hm & Hb); exists before, ps, after.
    + by rewrite <- matches_any_true, <- Hnone.
    + by rewrite matches_any_true, Hnone.
  - by rewrite first_family_None, Hnone.
  - intros i j F1 F2 ps1 ps2 p Hi Hj Hlt Hp Hmatch.
    apply (first_family_earlier_wins mol table i j F1 F2 ps1 ps2);
      [apply family_smarts_patterns_NoDup|done|done|done|].
    apply matches_any_true. eauto.
Qed.

End classification.

(** 1-methylpyridinium matches the pyridinium pattern (6th family) and the
    generic ammonium pattern (14th family): it is a pyridinium. *)
Lemma chemical_family_first_match_witness :
  @chemical_family Demo.toolkit Demo.methylpyridinium ≠ Some "ammonium"
  ∧ @chemical_family Demo.toolkit Demo.methylpyridinium = Some "pyridinium".
Proof.
  split; [|reflexivity].
  pose proof (@chemical_family_first_match Demo.toolkit Demo.methylpyridinium)
    as (_ & _ & Hwins).
  apply (Hwins 5%nat 13%nat "pyridinium" "ammonium"
           ["c1cc[n+]cc1"] ["[#7+]"] "c1cc[n+]cc1");
    [reflexivity|reflexivity|lia|by left|reflexivity].
Defined.

(** ** IonicLiquid.from_smiles *)

Section ionic_liquid_properties.
Context `{T : Toolkit}.

Lemma IonicLiquid_from_smiles_unpack (combined : string) :
  length (split "." combined) ≠ 2%nat →
  IonicLiquid_from_smiles combined = Raise ValueError.
Proof.
  intros Hlen. unfold IonicLiquid_from_smiles.
  destruct (split "." combined) as [|a [|b [|c l]]]; simpl in *; done.
Qed.

(** The body of [IonicLiquid.from_smiles] once both fragments are parsed
    to ions: the swap, then the two constructors. *)
Lemma IonicLiquid_from_smiles_parsed (combined left right : string) (ml mr : Mol) :
  split "." combined = [left; right] →
  MolFromSmiles left = Some ml → GetFormalCharge ml ≠ 0 →
  MolFromSmiles right = Some mr → GetFormalCharge mr ≠ 0 →
  IonicLiquid_from_smiles combined =
    let '(first, second) :=
      if GetFormalCharge ml <? 0 then (mr, ml) else (ml, mr) in
    cation ← new CationClass (MolToSmiles first false) first;
    anion ← new AnionClass (MolToSmiles second false) second;
    Ok (mkIonicLiquid cation anion).
Proof.
  intros Hsplit Hl Hcl Hr Hcr. unfold IonicLiquid_from_smiles. rewrite Hsplit.
  rewrite (from_smiles_parsed _ _ _ Hl), (from_smiles_parsed _ _ _ Hr).
  rewrite !new_Ion_ok by done. simpl. unfold charge. simpl.
  by destruct (GetFormalCharge ml <? 0).
Qed.

(** C4. A combined notation whose two fragments parse to ions of the same
    charge sign is rejected with [InvalidChargeError] (raised by the
    [Anion] constructor when both are positive, by the [Cation]
    constructor when both are negative); a notation that does not split
    on "." into exactly two fragments is rejected, and so is one with a
    fragment that [Ion.from_smiles] rejects. *)
Theorem same_sign_pair_is_rejected (combined : string) :
  (∀ left right ml mr,
     split "." combined = [left; right] →
     MolFromSmiles left = Some ml → MolFromSmiles right = Some mr →
     (0 < GetFormalCharge ml ∧ 0 < GetFormalCharge mr)
     ∨ (GetFormalCharge ml < 0 ∧ GetFormalCharge mr < 0) →
     ∃ msg, IonicLiquid_from_smiles combined = Raise (InvalidChargeError msg)
            ∧ includes msg (format_plus_d (GetFormalCharge mr)))
  ∧ (length (split "." combined) ≠ 2%nat →
     IonicLiquid_from_smiles combined = Raise ValueError)
  ∧ (∀ left right,
       split "." combined = [left; right] →
       raises (from_smiles IonClass left) ∨ raises (from_smiles IonClass right) →
       raises (IonicLiquid_from_smiles combined)).
Proof.
  split; [|split].
  - intros left right ml mr Hsplit Hl Hr Hsign.
    rewrite (IonicLiquid_from_smiles_parsed _ _ _ _ _ Hsplit Hl) by (done || lia).
    destruct Hsign as [[Hpl Hpr]|[Hnl Hnr]].
    + destruct (Z.ltb_spec (GetFormalCharge ml) 0); [lia|].
      rewrite new_Cation_ok by done. simpl.
      rewrite new_Anion_positive by done. simpl.
      eexists. split; [done|]. apply includes_suffix.
    + destruct (Z.ltb_spec (GetFormalCharge ml) 0); [|lia].
      rewrite new_Cation_negative by done. simpl.
      eexists. split; [done|]. apply includes_suffix.
  - apply IonicLiquid_from_smiles_unpack.
  - intros left right Hsplit Hfail. unfold IonicLiquid_from_smiles. rewrite Hsplit.
    destruct (from_smiles IonClass left) as [lion|e]; simpl; [|done].
    destruct Hfail as [[]|Hfail].
    by destruct (from_smiles IonClass right) as [rion|e]; simpl.
Qed.

(** The constructor on a structure object: [__post_init__] reads the
    structure, and the instance refers to the object. *)
Lemma Objects_new_unfold (cls : ion_class) (notation : string)
  (rdkit_mol : Objects.Mol_object) :
  Objects.new cls notation rdkit_mol
  = (new cls notation (Objects.structure rdkit_mol) ;;
     Ok (Objects.mkIon_object cls notation rdkit_mol)).
Proof.
  unfold Objects.new, new, Objects.content_of. simpl.
  by destruct (post_init _).
Qed.

(** A call on the object level returns what the call on the content
    returns, with the structure objects it built. *)
Lemma Objects_from_smiles_content (cls : ion_class) (notation : string) (next : nat) :
  match (Objects.from_smiles cls notation next).1 with
  | Ok self => from_smiles cls notation = Ok (Objects.content_of self)
  | Raise e => from_smiles cls notation = Raise e
  end.
Proof.
  unfold Objects.from_smiles, Objects.MolFromSmiles_new, from_smiles.
  destruct (MolFromSmiles notation) as [mol|]; simpl; [|done].
  rewrite Objects_new_unfold. simpl.
  unfold new. by destruct (post_init _).
Qed.

Lemma Objects_IonicLiquid_from_smiles_unpack (combined : string) (next : nat) :
  length (split "." combined) ≠ 2%nat →
  Objects.IonicLiquid_from_smiles combined next = (Raise ValueError, next).
Proof.
  intros Hlen. unfold Objects.IonicLiquid_from_smiles.
  destruct (split "." combined) as [|l [|r [|x rest]]]; simpl in *; done.
Qed.

(** [IonicLiquid.from_smiles] on two fragments of opposite charge signs,
    with the structure objects built: the left fragment is parsed first. *)
Lemma Objects_IonicLiquid_from_smiles_pair (combined left right : string)
  (ml mr : Mol) (next : nat) :
  split "." combined = [left; right] →
  MolFromSmiles left = Some ml → MolFromSmiles right = Some mr →
  (0 < GetFormalCharge ml → GetFormalCharge mr < 0 →
   Objects.IonicLiquid_from_smiles combined next
   = (Ok (Objects.paired (Objects.mkMol_object next ml)
                         (Objects.mkMol_object (S next) mr)), S (S next)))
  ∧ (GetFormalCharge ml < 0 → 0 < GetFormalCharge mr →
     Objects.IonicLiquid_from_smiles combined next
     = (Ok (Objects.paired (Objects.mkMol_object (S next) mr)
                           (Objects.mkMol_object next ml)), S (S next))).
Proof.
  intros Hsplit Hl Hr.
  assert (Hbody : GetFormalCharge ml ≠ 0 → GetFormalCharge mr ≠ 0 →
    Objects.IonicLiquid_from_smiles combined next
    = (let '(first, second) :=
         if GetFormalCharge ml <? 0
         then (Objects.mkMol_object (S next) mr, Objects.mkMol_object next ml)
         else (Objects.mkMol_object next ml, Objects.mkMol_object (S next) mr) in
       cation ← Objects.new CationClass (MolToSmiles (Objects.structure first) false) first;
       anion ← Objects.new AnionClass (MolToSmiles (Objects.structure second) false) second;
       Ok (Objects.mkIonicLiquid_object cation anion), S (S next))).
  { intros Hnl Hnr. unfold Objects.IonicLiquid_from_smiles. rewrite Hsplit.
    unfold Objects.from_smiles, Objects.MolFromSmiles_new. rewrite Hl. simpl.
    rewrite Objects_new_unfold. simpl. rewrite new_Ion_ok by done. simpl.
    rewrite Hr. simpl.
    rewrite Objects_new_unfold. simpl. rewrite new_Ion_ok by done. simpl.
    unfold Objects.charge. simpl. by destruct (GetFormalCharge ml <? 0). }
  split.
  - intros Hpl Hnr. rewrite Hbody by lia.
    destruct (Z.ltb_spec (GetFormalCharge ml) 0); [lia|].
    rewrite !Objects_new_unfold. simpl.
    by rewrite new_Cation_ok, new_Anion_ok.
  - intros Hnl Hpr. rewrite Hbody by lia.
    destruct (Z.ltb_spec (GetFormalCharge ml) 0); [|lia].
    rewrite !Objects_new_unfold. simpl.
    by rewrite new_Cation_ok, new_Anion_ok.
Qed.

(** On every notation the call with objects and the call on contents end
    the same way, and a result of the former holds the content the latter
    returns. *)
Lemma Objects_IonicLiquid_from_smiles_content (combined : string) (next : nat) :
  match (Objects.IonicLiquid_from_smiles combined next).1 with
  | Ok self => IonicLiquid_from_smiles combined = Ok (Objects.content self)
  | Raise e => IonicLiquid_from_smiles combined = Raise e
  end.
Proof.
  unfold Objects.IonicLiquid_from_smiles, IonicLiquid_from_smiles.
  destruct (split "." combined) as [|l [|r [|x rest]]]; try done.
  unfold Objects.from_smiles, Objects.MolFromSmiles_new, from_smiles.
  destruct (MolFromSmiles l) as [ml|]; simpl; [|done].
  rewrite Objects_new_unfold. simpl.
  destruct (new IonClass (MolToSmiles ml false) ml) as [lion|e] eqn:Hl; simpl; [|done].
  destruct (MolFromSmiles r) as [mr|]; simpl; [|done].
  rewrite Objects_new_unfold. simpl.
  destruct (new IonClass (MolToSmiles mr false) mr) as [rion|e] eqn:Hr; simpl; [|done].
  assert (lion = mkIon IonClass (MolToSmiles ml false) ml) as ->.
  { unfold new in Hl. destruct (post_init _); by simplify_eq/=. }
  assert (rion = mkIon IonClass (MolToSmiles mr false) mr) as ->.
  { unfold new in Hr. destruct (post_init _); by simplify_eq/=. }
  unfold Objects.charge, charge. simpl.
  destruct (GetFormalCharge ml <? 0); simpl; rewrite !Objects_new_unfold; simpl;
    unfold new; simpl;
    repeat (match goal with |- context [post_init ?i] => destruct (post_init i) end;
            simpl; try done).
Qed.

(** C7 (amended). For a notation [c] the toolkit parses to a positively
    charged structure and a notation [a] it parses to a negatively charged
    one, neither containing a ".", [c.a] and [a.c] both give an ionic
    liquid with [c]'s structure as cation and [a]'s as anion, under the
    same canonical notations: the two results have the same content,
    whatever the order.  They are not [==]: each call builds its own
    structure objects, and when one call is made after the other the
    cations refer to two objects.  When a notation contains a ".", both
    orders fail alike in the unpacking. *)
Theorem from_smiles_orders_agree_in_content (c a : string) (mc ma : Mol) :
  MolFromSmiles c = Some mc → 0 < GetFormalCharge mc →
  MolFromSmiles a = Some ma → GetFormalCharge ma < 0 →
  (length (split "." c) = 1%nat → length (split "." a) = 1%nat →
   ∀ n m : nat,
     let first := Objects.paired (Objects.mkMol_object n mc)
                                 (Objects.mkMol_object (S n) ma) in
     let second := Objects.paired (Objects.mkMol_object (S m) mc)
                                  (Objects.mkMol_object m ma) in
     Objects.IonicLiquid_from_smiles (c +:+ "." +:+ a) n = (Ok first, S (S n))
     ∧ Objects.IonicLiquid_from_smiles (a +:+ "." +:+ c) m = (Ok second, S (S m))
     ∧ Objects.content first = paired mc ma
     ∧ Objects.content second = paired mc ma
     ∧ ((S (S n) ≤ m)%nat ∨ (S (S m) ≤ n)%nat →
        Objects.IonicLiquid_eq first second = false))
  ∧ (length (split "." c) ≠ 1%nat ∨ length (split "." a) ≠ 1%nat →
     ∀ n : nat,
       Objects.IonicLiquid_from_smiles (c +:+ "." +:+ a) n = (Raise ValueError, n)
       ∧ Objects.IonicLiquid_from_smiles (a +:+ "." +:+ c) n = (Raise ValueError, n)).
Proof.
  intros Hc Hpos Ha Hneg.
  assert (Hca : split "." (c +:+ "." +:+ a) = (split "." c ++ split "." a)%list)
    by apply split_app.
  assert (Hac : split "." (a +:+ "." +:+ c) = (split "." a ++ split "." c)%list)
    by apply split_app.
  split.
  - intros Hlc Hla n m first second.
    rewrite (split_singleton _ _ Hlc), (split_singleton _ _ Hla) in Hca, Hac.
    destruct (Objects_IonicLiquid_from_smiles_pair _ _ _ _ _ n Hca Hc Ha) as [Hfirst _].
    destruct (Objects_IonicLiquid_from_smiles_pair _ _ _ _ _ m Hac Ha Hc) as [_ Hsecond].
    split; [by apply Hfirst|]. split; [by apply Hsecond|].
    split; [done|]. split; [done|].
    intros Hafter. unfold Objects.IonicLiquid_eq, Objects.Ion_eq, Objects.Mol_eq.
    simpl. rewrite String.eqb_refl. simpl.
    destruct (Nat.eqb_spec n (S m)) as [Heq|_]; [lia|done].
  - intros Hdots n.
    pose proof (split_length_pos "." c). pose proof (split_length_pos "." a).
    rewrite !Objects_IonicLiquid_from_smiles_unpack; [done| |].
    + rewrite Hac, length_app. lia.
    + rewrite Hca, length_app. lia.
Qed.

End ionic_liquid_properties.

(** Two cations, two anions, a single fragment, and a neutral fragment. *)
Lemma same_sign_pair_is_rejected_witness :
  (∃ msg, @IonicLiquid_from_smiles Demo.toolkit "[Na+].C[n+]1ccccc1"
          = Raise (InvalidChargeError msg))
  ∧ (∃ msg, @IonicLiquid_from_smiles Demo.toolkit "[Cl-].F[B-](F)(F)F"
            = Raise (InvalidChargeError msg))
  ∧ @IonicLiquid_from_smiles Demo.toolkit "[Na+]" = Raise ValueError
  ∧ raises (@IonicLiquid_from_smiles Demo.toolkit "[Na+].CCO").
Proof.
  split; [|split; [|split]].
  - destruct (@same_sign_pair_is_rejected Demo.toolkit "[Na+].C[n+]1ccccc1") as (H & _ & _).
    destruct (H "[Na+]" "C[n+]1ccccc1" "[Na+]" "C[n+]1ccccc1")
      as (msg & Hmsg & _); [reflexivity|reflexivity|reflexivity|left; split; reflexivity|].
    by exists msg.
  - destruct (@same_sign_pair_is_rejected Demo.toolkit "[Cl-].F[B-](F)(F)F") as (H & _ & _).
    destruct (H "[Cl-]" "F[B-](F)(F)F" "[Cl-]" "F[B-](F)(F)F")
      as (msg & Hmsg & _); [reflexivity|reflexivity|reflexivity|right; split; reflexivity|].
    by exists msg.
  - destruct (@same_sign_pair_is_rejected Demo.toolkit "[Na+]") as (_ & H & _).
    apply H. vm_compute. lia.
  - destruct (@same_sign_pair_is_rejected Demo.toolkit "[Na+].CCO") as (_ & _ & H).
    apply (H "[Na+]" "CCO"); [reflexivity|right; exact I].
Defined.

(** Chloride and 1-methylpyridinium, in both orders, the second call made
    after the first. *)
Lemma from_smiles_orders_agree_in_content_witness :
  ∃ first second,
    @Objects.IonicLiquid_from_smiles Demo.toolkit "C[n+]1ccccc1.[Cl-]" 0
    = (Ok first, 2%nat)
    ∧ @Objects.IonicLiquid_from_smiles Demo.toolkit "[Cl-].C[n+]1ccccc1" 2
      = (Ok second, 4%nat)
    ∧ @Objects.content Demo.toolkit first = Demo.methylpyridinium_chloride
    ∧ @Objects.content Demo.toolkit second = Demo.methylpyridinium_chloride
    ∧ @Objects.IonicLiquid_eq Demo.toolkit first second = false.
Proof.
  destruct (@from_smiles_orders_agree_in_content Demo.toolkit
              "C[n+]1ccccc1" "[Cl-]" "C[n+]1ccccc1" "[Cl-]") as [Hpair _];
    [reflexivity|reflexivity|reflexivity|reflexivity|].
  destruct (Hpair eq_refl eq_refl 0%nat 2%nat) as (H1 & H2 & H3 & H4 & H5).
  eexists _, _. split; [exact H1|]. split; [exact H2|].
  split; [exact H3|]. split; [exact H4|]. apply H5. left. lia.
Defined.

(** C7, as stated, fails: 1-methylpyridinium chloride built from
    "C[n+]1ccccc1.[Cl-]" and then from "[Cl-].C[n+]1ccccc1" gives two
    results that are not [==], although their fields agree in class and
    notation. *)
Lemma results_of_the_two_orders_are_not_equal :
  ∃ first second,
    @Objects.IonicLiquid_from_smiles Demo.toolkit "C[n+]1ccccc1.[Cl-]" 0
    = (Ok first, 2%nat)
    ∧ @Objects.IonicLiquid_from_smiles Demo.toolkit "[Cl-].C[n+]1ccccc1" 2
      = (Ok second, 4%nat)
    ∧ @Objects.IonicLiquid_eq Demo.toolkit first second = false
    ∧ Objects.smiles_of (Objects.cation_of first)
      = Objects.smiles_of (Objects.cation_of second)
    ∧ Objects.smiles_of (Objects.anion_of first)
      = Objects.smiles_of (Objects.anion_of second).
Proof.
  eexists _, _. split; [vm_compute; reflexivity|].
  split; [vm_compute; reflexivity|]. repeat split.
Qed.

(** ** Order of binary64 values *)

Lemma SFcompare_antisym (x y : spec_float) :
  SFcompare y x = CompOpp <$> SFcompare x y.
Proof.
  destruct x as [sx|sx| |sx mx ex], y as [sy|sy| |sy my ey]; simpl;
    try done; try (by destruct sx); try (by destruct sy);
    try (by destruct sx, sy).
  destruct sx, sy; simpl; try done; f_equal;
    rewrite (Z.compare_antisym ex ey); destruct (ex ?= ey); simpl; try done.
  - f_equal. apply ZC4.
  - rewrite (ZC4 my mx). done.
Qed.

Lemma SFcompare_refl (x : spec_float) : x ≠ S754_nan → SFcompare x x = Some Eq.
Proof.
  destruct x as [sx|sx| |sx mx ex]; simpl; try done.
  - by destruct sx.
  - intros _. f_equal. rewrite Z.compare_refl, Pcompare_refl. by destruct sx.
Qed.

Lemma SFcompare_total (x y : spec_float) :
  x ≠ S754_nan → y ≠ S754_nan → is_Some (SFcompare x y).
Proof. destruct x, y; simpl; intros; try done; eauto. Qed.

Lemma is_nan_false (x : float) : is_nan x = false ↔ Prim2SF x ≠ S754_nan.
Proof.
  unfold is_nan. rewrite FloatAxioms.eqb_spec. unfold SFeqb. split.
  - intros Hn Hx. rewrite Hx in Hn. done.
  - intros Hx. by rewrite SFcompare_refl.
Qed.

Lemma is_nan_abs (x : float) : is_nan (abs x) = is_nan x.
Proof.
  destruct (is_nan x) eqn:Hx.
  - destruct (is_nan (abs x)) eqn:Ha; [done|].
    apply is_nan_false in Ha. rewrite FloatAxioms.abs_spec in Ha.
    assert (Prim2SF x ≠ S754_nan) as Hx' by (by destruct (Prim2SF x)).
    apply is_nan_false in Hx'. congruence.
  - apply is_nan_false. apply is_nan_false in Hx. rewrite FloatAxioms.abs_spec.
    by destruct (Prim2SF x).
Qed.

Lemma float_leb_refl (x : float) : is_nan x = false → (x <=? x)%float = true.
Proof.
  intros Hx. apply is_nan_false in Hx. rewrite FloatAxioms.leb_spec. unfold SFleb.
  by rewrite SFcompare_refl.
Qed.

Lemma float_ltb_leb (x y : float) : (x <? y)%float = true → (x <=? y)%float = true.
Proof.
  rewrite FloatAxioms.ltb_spec, FloatAxioms.leb_spec. unfold SFltb, SFleb.
  by destruct (SFcompare (Prim2SF x) (Prim2SF y)) as [[]|].
Qed.

Lemma float_not_ltb_leb (x y : float) :
  is_nan x = false → is_nan y = false →
  (y <? x)%float = false → (x <=? y)%float = true.
Proof.
  intros Hx%is_nan_false Hy%is_nan_false.
  rewrite FloatAxioms.ltb_spec, FloatAxioms.leb_spec. unfold SFltb, SFleb.
  rewrite (SFcompare_antisym (Prim2SF x) (Prim2SF y)).
  destruct (SFcompare_total _ _ Hx Hy) as [c ->]. by destruct c.
Qed.

Lemma py_min_least (x y : float) :
  is_nan x = false → is_nan y = false → least_of x y (py_min x y).
Proof.
  intros Hx Hy. unfold least_of, py_min.
  destruct (y <? x)%float eqn:Hlt.
  - repeat split; [by right|by apply float_ltb_leb|by apply float_leb_refl].
  - repeat split; [by left|by apply float_leb_refl|by apply float_not_ltb_leb].
Qed.

Lemma py_max_greatest (x y : float) :
  is_nan x = false → is_nan y = false → greatest_of x y (py_max x y).
Proof.
  intros Hx Hy. unfold greatest_of, py_max.
  destruct (x <? y)%float eqn:Hlt.
  - repeat split; [by right|by apply float_ltb_leb|by apply float_leb_refl].
  - repeat split; [by left|by apply float_leb_refl|by apply float_not_ltb_leb].
Qed.

(** ** Combining rules *)

Section combining_rule_properties.
Context `{T : Toolkit}.
Import CombiningRules.

Lemma combining_rules_registry :
  combining_rules
  = {[ "concatenate" := None; "sum" := Some sum; "min_abs" := Some min_abs;
       "max_abs" := Some max_abs; "mean" := Some mean;
       "mean_atom_count" := Some mean_atom_count;
       "mean_molecular_weight" := Some mean_molecular_weight ]}.
Proof.
  apply map_eq. intros name. unfold combining_rules, register.
  repeat (rewrite !lookup_insert; case_decide; [done|]).
  done.
Qed.

(** C8. Each built-in rule is registered under its name and computes the
    formula of the table on binary64 values: [sum], [min_abs], [max_abs]
    and [mean] for every pair of values ([min] and [max] being the
    built-ins, which pick the least and the greatest of the two absolute
    values when neither is NaN); [mean_atom_count] and
    [mean_molecular_weight] whenever the denominator is not zero.  For
    the values 2.0 and 8.0 the first four give 10.0, 2.0, 8.0 and 5.0. *)
Theorem combining_rules_compute_their_formulas
  (ionic_liquid : IonicLiquid) (c a : float) :
  (combining_rules !! "sum" = Some (Some sum)
   ∧ combining_rules !! "min_abs" = Some (Some min_abs)
   ∧ combining_rules !! "max_abs" = Some (Some max_abs)
   ∧ combining_rules !! "mean" = Some (Some mean)
   ∧ combining_rules !! "mean_atom_count" = Some (Some mean_atom_count)
   ∧ combining_rules !! "mean_molecular_weight" = Some (Some mean_molecular_weight))
  ∧ sum ionic_liquid c a = Ok (c + a)%float
  ∧ min_abs ionic_liquid c a = Ok (py_min (abs c) (abs a))
  ∧ max_abs ionic_liquid c a = Ok (py_max (abs c) (abs a))
  ∧ (is_nan c = false → is_nan a = false →
     ∃ lo hi, min_abs ionic_liquid c a = Ok lo ∧ least_of (abs c) (abs a) lo
              ∧ max_abs ionic_liquid c a = Ok hi ∧ greatest_of (abs c) (abs a) hi)
  ∧ mean ionic_liquid c a = Ok (0.5 * (c + a))%float
  ∧ (∀ n_cation n_anion n,
       int_to_float (atom_count (cation ionic_liquid)) = Ok n_cation →
       int_to_float (atom_count (anion ionic_liquid)) = Ok n_anion →
       int_to_float (IonicLiquid_atom_count ionic_liquid) = Ok n →
       (n =? 0)%float = false →
       mean_atom_count ionic_liquid c a
       = Ok ((n_cation * c + n_anion * a) / n)%float)
  ∧ ((IonicLiquid_molecular_weight ionic_liquid =? 0)%float = false →
     mean_molecular_weight ionic_liquid c a
     = Ok ((molecular_weight (cation ionic_liquid) * c
            + molecular_weight (anion ionic_liquid) * a)
           / (molecular_weight (cation ionic_liquid)
              + molecular_weight (anion ionic_liquid)))%float)
  ∧ (sum ionic_liquid 2%float 8%float = Ok 10%float
     ∧ min_abs ionic_liquid 2%float 8%float = Ok 2%float
     ∧ max_abs ionic_liquid 2%float 8%float = Ok 8%float
     ∧ mean ionic_liquid 2%float 8%float = Ok 5%float).
Proof.
  split.
  { rewrite combining_rules_registry. repeat split; by simplify_map_eq. }
  repeat split; try reflexivity.
  - intros Hc Ha. exists (py_min (abs c) (abs a)), (py_max (abs c) (abs a)).
    repeat split; first [reflexivity | idtac].
    all: first [apply py_min_least | apply py_max_greatest];
      by rewrite is_nan_abs.
  - intros n_cation n_anion n Hnc Hna Hn Hnz. unfold mean_atom_count.
    rewrite Hnc, Hna, Hn. simpl. unfold float_div. by rewrite Hnz.
  - intros Hnz. unfold mean_molecular_weight, float_div.
    by rewrite Hnz.
Qed.

End combining_rule_properties.

(** 1-methylpyridinium chloride: 7 + 1 atoms, weights 94.125 and 35.5. *)
Lemma combining_rules_compute_their_formulas_witness :
  @CombiningRules.mean_atom_count Demo.toolkit Demo.methylpyridinium_chloride
     2%float 8%float = Ok 2.75%float
  ∧ @CombiningRules.mean_molecular_weight Demo.toolkit Demo.methylpyridinium_chloride
      2%float 8%float = Ok (472.25 / 129.625)%float
  ∧ (∃ lo hi,
       @CombiningRules.min_abs Demo.toolkit Demo.methylpyridinium_chloride
         (-8)%float 2%float = Ok lo
       ∧ least_of 8%float 2%float lo
       ∧ @CombiningRules.max_abs Demo.toolkit Demo.methylpyridinium_chloride
           (-8)%float 2%float = Ok hi
       ∧ greatest_of 8%float 2%float hi).
Proof.
  split; [|split].
  - pose proof (@combining_rules_compute_their_formulas Demo.toolkit
                  Demo.methylpyridinium_chloride 2%float 8%float)
      as (_ & _ & _ & _ & _ & _ & Hcount & _ & _).
    apply (Hcount 7%float 1%float 8%float); reflexivity.
  - pose proof (@combining_rules_compute_their_formulas Demo.toolkit
                  Demo.methylpyridinium_chloride 2%float 8%float)
      as (_ & _ & _ & _ & _ & _ & _ & Hweight & _).
    apply Hweight. reflexivity.
  - pose proof (@combining_rules_compute_their_formulas Demo.toolkit
                  Demo.methylpyridinium_chloride (-8)%float 2%float)
      as (_ & _ & _ & _ & Horder & _).
    apply Horder; reflexivity.
Defined.

(** ** The memoization layer *)

Section memory_properties.
Context {A : Type} `{Countable A} {R : Type}.
Implicit Types (f : A → R) (t : memory.Table A R) (a b : A).

Lemma invocation_count_cons a b (l : list A) (m m' : gmap A R) :
  memory.invocation_count a (memory.mkTable m (b :: l))
  = ((if decide (b = a) then 1 else 0)
     + memory.invocation_count a (memory.mkTable m' l))%nat.
Proof.
  unfold memory.invocation_count. simpl. rewrite filter_cons.
  by destruct (decide (b = a)).
Qed.

Lemma memo_invariant_empty f : memory.memo_invariant f memory.empty.
Proof. split; [intros a r|intros a]; simpl; by rewrite ?lookup_empty. Qed.

Lemma cache_hit f a t r :
  memory.entries t !! a = Some r → memory.cache f a t = (r, t).
Proof. intros Hr. unfold memory.cache. by rewrite Hr. Qed.

Lemma cache_miss f a t :
  memory.entries t !! a = None →
  memory.cache f a t
  = (f a, memory.mkTable (<[a := f a]> (memory.entries t)) (a :: memory.invocations t)).
Proof. intros Hr. unfold memory.cache. by rewrite Hr. Qed.

Lemma cache_stores f a t :
  memory.entries (memory.cache f a t).2 !! a = Some (memory.cache f a t).1.
Proof.
  destruct (memory.entries t !! a) as [r|] eqn:Hr.
  - by rewrite (cache_hit _ _ _ _ Hr).
  - rewrite (cache_miss _ _ _ Hr). simpl. by rewrite lookup_insert_eq.
Qed.

Lemma cache_keeps f a t b r :
  memory.entries t !! b = Some r →
  memory.entries (memory.cache f a t).2 !! b = Some r.
Proof.
  intros Hb. destruct (memory.entries t !! a) as [r'|] eqn:Hr.
  - by rewrite (cache_hit _ _ _ _ Hr).
  - rewrite (cache_miss _ _ _ Hr). simpl.
    rewrite lookup_insert_ne; [done|]. intros ->. congruence.
Qed.

Lemma cache_invariant f a t :
  memory.memo_invariant f t →
  (memory.cache f a t).1 = f a ∧ memory.memo_invariant f (memory.cache f a t).2.
Proof.
  intros [Hval Hcount]. destruct (memory.entries t !! a) as [r|] eqn:Hr.
  - rewrite (cache_hit _ _ _ _ Hr). simpl. split; [by apply Hval|done].
  - rewrite (cache_miss _ _ _ Hr). simpl. split; [done|]. split.
    + intros b r. simpl. rewrite lookup_insert. case_decide; [by intros [= <-]; subst|].
      apply Hval.
    + intros b. destruct t as [m l]. simpl in *.
      rewrite (invocation_count_cons _ _ _ _ m), lookup_insert, Hcount.
      destruct (decide (a = b)) as [->|Hne]; [by rewrite Hr|done].
Qed.

Lemma run_invariant f (args : list A) t :
  memory.memo_invariant f t →
  (memory.run f args t).1 = f <$> args
  ∧ memory.memo_invariant f (memory.run f args t).2
  ∧ (∀ b r, memory.entries t !! b = Some r →
            memory.entries (memory.run f args t).2 !! b = Some r).
Proof.
  revert t. induction args as [|a args IH]; intros t Hinv; simpl; [done|].
  destruct (cache_invariant f a t Hinv) as [Hres Hinv1].
  pose proof (cache_keeps f a t) as Hkeep.
  destruct (memory.cache f a t) as [r t1]. simpl in *.
  destruct (IH t1 Hinv1) as (Hrs & Hinv2 & Hkeep2).
  destruct (memory.run f args t1) as [rs t2]. simpl in *.
  split; [by rewrite Hres, Hrs|]. split; [done|].
  intros b rb Hb. by apply Hkeep2, Hkeep.
Qed.

(** C9. After any run of calls of [cache(f)] from the empty table, two
    further calls on an argument [a] both return [f a]; over the whole
    run the underlying [f] has been invoked exactly once on [a], the
    second call leaving the table as it was; every result of the run is
    [f]'s; and every entry stored before the two calls is still stored. *)
Theorem cache_memoizes f (earlier : list A) a :
  let before := memory.run f earlier memory.empty in
  let first := memory.cache f a before.2 in
  let second := memory.cache f a first.2 in
  before.1 = f <$> earlier
  ∧ first.1 = f a
  ∧ second.1 = f a
  ∧ second.2 = first.2
  ∧ memory.invocation_count a second.2 = 1%nat
  ∧ (∀ b r, memory.entries before.2 !! b = Some r →
            memory.entries second.2 !! b = Some r).
Proof.
  intros before first second.
  destruct (run_invariant f earlier memory.empty (memo_invariant_empty f))
    as (Hrs & Hinv & _). fold before in Hrs, Hinv.
  destruct (cache_invariant f a before.2 Hinv) as [Hfirst Hinv1]. fold first in Hfirst, Hinv1.
  pose proof (cache_stores f a before.2) as Hstored. fold first in Hstored.
  assert (Hsecond : second = (first.1, first.2)).
  { unfold second. by apply cache_hit. }
  rewrite Hsecond. simpl. repeat split; try done.
  - destruct Hinv1 as [_ Hcount]. by rewrite Hcount, Hstored.
  - intros b r Hb. unfold first. by apply cache_keeps.
Qed.

End memory_properties.

(** ** Dicts *)

Section dict_properties.
Context {V : Type}.
Implicit Types (d : dict V) (name : string) (value : V).

Lemma dict_get_elem_of d name value :
  NoDup d.*1 → dict_get d name = Some value ↔ (name, value) ∈ d.
Proof.
  induction d as [|[k v] d IH]; simpl; intros Hnd.
  - split; [done|]. intros Hin. by apply elem_of_nil in Hin.
  - apply NoDup_cons in Hnd as [Hk Hnd].
    destruct (String.eqb_spec k name) as [->|Hne].
    + split.
      * intros [= ->]. left.
      * intros Hin. apply elem_of_cons in Hin as [[= ->]|Hin]; [done|].
        destruct Hk. apply list_elem_of_fmap. by exists (name, value).
    + rewrite (IH Hnd). split; [by right|].
      intros Hin. apply elem_of_cons in Hin as [[= -> ->]|Hin]; done.
Qed.

Lemma dict_get_list_to_map d name :
  dict_get d name = (list_to_map d : gmap string V) !! name.
Proof.
  induction d as [|[k v] d IH]; simpl; [by rewrite lookup_empty|].
  destruct (String.eqb_spec k name) as [->|Hne].
  - by rewrite lookup_insert_eq.
  - by rewrite lookup_insert_ne.
Qed.

(** Assigning to a key that is present replaces its value where it
    stands. *)
Lemma dict_set_middle (done_ rest : dict V) name (old new : V) :
  name ∉ done_.*1 →
  dict_set name new (done_ ++ (name, old) :: rest)%list
  = (done_ ++ (name, new) :: rest)%list.
Proof.
  induction done_ as [|[k v] done_ IH]; simpl; intros Hk.
  - by rewrite String.eqb_refl.
  - apply not_elem_of_cons in Hk as [Hne Hk].
    destruct (String.eqb_spec k name) as [->|_]; [done|].
    by rewrite IH.
Qed.

End dict_properties.

(** ** IonFeaturizer.__call__ *)

Section coercion_properties.
Context `{T : Toolkit} (float_of_str : string → option float).
Implicit Types (value : PyValue) (features items : dict PyValue).

Lemma int_to_float_error (z : Z) (e : exception) :
  int_to_float z = Raise e → e = OverflowError.
Proof.
  unfold int_to_float. destruct (binary_normalize prec emax z 0 false); congruence.
Qed.

Lemma py_float_error value (e : exception) :
  py_float float_of_str value = Raise e →
  e = TypeError ∨ e = ValueError
  ∨ (e = OverflowError ∧ ∃ z, value = VInt z ∧ int_to_float z = Raise OverflowError).
Proof.
  destruct value as [|b|z|x|s|]; simpl; try (intros [= <-]; by auto); try done.
  - intros Hz. pose proof (int_to_float_error _ _ Hz) as ->. right; right. eauto.
  - destruct (float_of_str s); [done|]. intros [= <-]. auto.
Qed.

(** [coerce] returns unless [float] meets an integer beyond the range. *)
Lemma coerce_returns value :
  (∀ z, value = VInt z → int_to_float z ≠ Raise OverflowError) →
  coerce float_of_str value = Ok (coerced_value float_of_str value).
Proof.
  intros Hz. unfold coerced_value, coerce.
  destruct (py_float float_of_str value) as [x|e] eqn:Hf; [done|].
  apply py_float_error in Hf as [->|[->|[-> (z & -> & Hover)]]]; [done|done|].
  by destruct (Hz z).
Qed.

Lemma coerced_value_float value (x : float) :
  coerced_value float_of_str value = VFloat x ↔ py_float float_of_str value = Ok x.
Proof.
  unfold coerced_value, coerce.
  destruct (py_float float_of_str value) as [y|e] eqn:Hf.
  - split; congruence.
  - split; [|done]. destruct e; try done; intros ->; simpl in Hf; congruence.
Qed.

(** A second pass of the loop changes nothing. *)
Lemma coerced_value_idempotent value :
  coerced_value float_of_str (coerced_value float_of_str value)
  = coerced_value float_of_str value.
Proof.
  unfold coerced_value at 2 3. unfold coerce.
  destruct (py_float float_of_str value) as [x|e] eqn:Hf.
  - done.
  - destruct e; try done; unfold coerced_value, coerce; by rewrite Hf.
Qed.

Lemma coerced_value_None value :
  py_float float_of_str value = Raise TypeError
  ∨ py_float float_of_str value = Raise ValueError →
  coerced_value float_of_str value = VNone.
Proof. unfold coerced_value, coerce. by intros [-> | ->]. Qed.

Lemma coerced_keys features : (coerced float_of_str features).*1 = features.*1.
Proof.
  unfold coerced. induction features as [|[k v] features IH]; [done|].
  rewrite !fmap_cons. simpl. by f_equal.
Qed.

Lemma elem_of_coerced features name (v : PyValue) :
  (name, v) ∈ coerced float_of_str features
  ↔ ∃ value, (name, value) ∈ features ∧ v = coerced_value float_of_str value.
Proof.
  unfold coerced. rewrite list_elem_of_fmap. split.
  - intros ([k value] & [= -> ->] & Hin). eauto.
  - intros (value & Hin & ->). by exists (name, value).
Qed.

(** The loop, from any point on: the items already visited hold their
    coerced values, the others are as they were. *)
Lemma coerce_loop_returns (visited items : dict PyValue) :
  NoDup (visited ++ items)%list.*1 →
  no_overflow items →
  coerce_loop float_of_str items (visited ++ items)%list
  = (Ok tt, (visited ++ coerced float_of_str items)%list).
Proof.
  revert visited. induction items as [|[name value] items IH]; intros visited Hnd Hno.
  - done.
  - simpl. rewrite coerce_returns.
    2:{ intros z ->. apply (Hno name). left. }
    rewrite dict_set_middle.
    2:{ rewrite fmap_app in Hnd. apply NoDup_app in Hnd as (_ & Hdisj & _).
        intros Hin. apply (Hdisj _ Hin). simpl. left. }
    rewrite (cons_middle _ visited items), (cons_middle _ visited (coerced _ items)).
    rewrite !app_assoc. apply IH.
    + rewrite <- app_assoc. simpl.
      rewrite !fmap_app in *. simpl in *. done.
    + intros k z Hin. apply (Hno k). by right.
Qed.

Lemma coerce_loop_whole features :
  dict_wf features → no_overflow features →
  coerce_loop float_of_str features features = (Ok tt, coerced float_of_str features).
Proof. intros Hwf Hno. by apply (coerce_loop_returns []). Qed.

End coercion_properties.

Section featurizer_properties.
Context `{T : Toolkit} (float_of_str : string → option float).
Implicit Types (value : PyValue) (features : dict PyValue).

(** Once the loop has returned, every value is a float or [None]: reading
    the values that are not [None] as floats loses nothing. *)
Lemma coerced_values features name (v : PyValue) :
  no_overflow features → (name, v) ∈ coerced float_of_str features →
  v = VNone ∨ ∃ x, v = VFloat x.
Proof.
  intros Hno (value & Hin & ->)%elem_of_coerced.
  assert (Hc : coerce float_of_str value = Ok (coerced_value float_of_str value)).
  { apply coerce_returns. intros z ->. by apply (Hno name). }
  revert Hc. generalize (coerced_value float_of_str value). intros v.
  unfold coerce. destruct (py_float float_of_str value) as [x|[]]; intros [= <-]; eauto.
Qed.

Lemma not_None_items_lookup features name (x : float) :
  dict_wf features →
  not_None_items features !! name = Some x ↔ (name, VFloat x) ∈ features.
Proof.
  unfold dict_wf, not_None_items. intros Hwf.
  set (g := fun '(name, value) =>
              match value with VFloat x => Some (name, x) | _ => None end).
  assert (Hkeys : NoDup (omap g features).*1).
  { induction features as [|[k v] features IH]; csimpl; [constructor|].
    csimpl in Hwf. apply NoDup_cons in Hwf as [Hk Hwf]. specialize (IH Hwf).
    destruct v; csimpl; try done. apply NoDup_cons. split; [|done].
    intros ([k' y] & Heq & Hin)%list_elem_of_fmap. simpl in Heq. subst k'.
    apply list_elem_of_omap in Hin as ([k' v'] & Hin & Hg).
    destruct v'; unfold g in Hg; try done. simplify_eq.
    apply Hk. apply list_elem_of_fmap. by eexists (_, _). }
  rewrite <- (elem_of_list_to_map _ _ _ Hkeys), list_elem_of_omap. split.
  - intros ([k v] & Hin & Hg). destruct v; unfold g in Hg; try done. by simplify_eq.
  - intros Hin. by exists (name, VFloat x).
Qed.

(** What [__call__] computes from the dict [_featurize] hands back. *)
Lemma IonFeaturizer_call_returns (self : IonFeaturizer) (ion : Ion) (t : Memory) :
  let obj := (_featurize self ion t).1 in
  dict_wf (content obj) → no_overflow (content obj) →
  IonFeaturizer_call float_of_str self ion t
  = (Ok (not_None_items (coerced float_of_str (content obj))),
     match obj with
     | Memoized key _ =>
         memory.write_through key (coerced float_of_str (content obj))
           (_featurize self ion t).2
     | Owned _ => (_featurize self ion t).2
     end).
Proof.
  intros obj Hwf Hno. unfold IonFeaturizer_call. subst obj.
  destruct (_featurize self ion t) as [obj t1]. simpl in *.
  rewrite coerce_loop_whole by done. done.
Qed.

(** C3 (amended). Whatever dict [_featurize] hands back (integers beyond
    the binary64 range apart), [__call__] returns, without raising, the
    mapping of exactly the names whose value [float] accepts, each with
    the float obtained; a value on which [float] raises [TypeError] or
    [ValueError] is absent; a NaN is a float like any other and is kept. *)
Theorem IonFeaturizer_keeps_what_float_accepts
  (self : IonFeaturizer) (ion : Ion) (t : Memory) :
  let raw := content (_featurize self ion t).1 in
  dict_wf raw → no_overflow raw →
  ∃ result,
    (IonFeaturizer_call float_of_str self ion t).1 = Ok result
    ∧ (∀ name x,
         result !! name = Some x
         ↔ ∃ value, dict_get raw name = Some value
                    ∧ py_float float_of_str value = Ok x)
    ∧ (∀ name value,
         dict_get raw name = Some value →
         py_float float_of_str value = Raise TypeError
         ∨ py_float float_of_str value = Raise ValueError →
         result !! name = None)
    ∧ (∀ name, dict_get raw name = Some (VFloat nan) → result !! name = Some nan).
Proof.
  intros raw Hwf Hno.
  assert (Hlookup : ∀ name x,
    not_None_items (coerced float_of_str raw) !! name = Some x
    ↔ ∃ value, dict_get raw name = Some value ∧ py_float float_of_str value = Ok x).
  { intros name x. rewrite not_None_items_lookup, elem_of_coerced.
    2:{ unfold dict_wf. by rewrite coerced_keys. }
    split; intros (value & Hin & Hx); exists value.
    - split; [by apply dict_get_elem_of|by apply coerced_value_float].
    - split; [by apply dict_get_elem_of|]. symmetry. by apply coerced_value_float. }
  exists (not_None_items (coerced float_of_str raw)).
  split; [by rewrite IonFeaturizer_call_returns|]. split; [done|]. split.
  - intros name value Hget Hfail.
    destruct (not_None_items (coerced float_of_str raw) !! name) as [x|] eqn:Hx; [|done].
    apply Hlookup in Hx as (value' & Hget' & Hok).
    destruct Hfail; congruence.
  - intros name Hget. apply Hlookup. by exists (VFloat nan).
Qed.

(** The first featurization of a structure by the RDKit variant. *)
Lemma RDKit_featurize_first (ion : Ion) (t : Memory) :
  memory.entries t !! rdkit_mol ion = None →
  _featurize RDKitIonFeaturizer ion t
  = (Memoized (rdkit_mol ion) (CalcMolDescriptors (rdkit_mol ion)),
     memory.mkTable
       (<[rdkit_mol ion := CalcMolDescriptors (rdkit_mol ion)]> (memory.entries t))
       (rdkit_mol ion :: memory.invocations t)).
Proof.
  intros Hnew. simpl. unfold rdkit_calc_mol_descriptors.
  by rewrite cache_miss.
Qed.

End featurizer_properties.

Lemma no_overflowb_sound (features : dict PyValue) :
  no_overflowb features = true → no_overflow features.
Proof.
  unfold no_overflowb, no_overflow. rewrite forallb_forall.
  intros Hall name z Hin Hover.
  specialize (Hall (name, VInt z)). simpl in Hall.
  rewrite Hover in Hall. apply list_elem_of_In in Hin. by specialize (Hall Hin).
Qed.

(** 1-methylpyridinium through the RDKit variant, from an empty table. *)
Lemma IonFeaturizer_keeps_what_float_accepts_witness :
  ∃ result,
    (@IonFeaturizer_call Demo.toolkit Demo.float_of_str RDKitIonFeaturizer
       Demo.methylpyridinium memory.empty).1 = Ok result
    ∧ result !! "MolWt" = Some 94.125%float
    ∧ result !! "NumHDonors" = Some 0%float
    ∧ result !! "Ipc" = None
    ∧ result !! "RingKind" = None.
Proof.
  destruct (@IonFeaturizer_keeps_what_float_accepts Demo.toolkit Demo.float_of_str
              RDKitIonFeaturizer Demo.methylpyridinium memory.empty)
    as (result & Hres & Hiff & Hnone & _).
  - apply (bool_decide_unpack (NoDup _)). vm_compute. exact I.
  - apply no_overflowb_sound. reflexivity.
  - exists result. split; [exact Hres|]. split; [|split; [|split]].
    + apply Hiff. exists (VFloat 94.125). split; reflexivity.
    + apply Hiff. exists (VInt 0). split; reflexivity.
    + apply (Hnone "Ipc" VNone); [reflexivity|left; reflexivity].
    + apply (Hnone "RingKind" (VStr "aromatic")); [reflexivity|right; reflexivity].
Defined.

(** C3, as stated, fails: the descriptor "MaxPartialCharge" of
    1-methylpyridinium is NaN, and it is in the mapping returned. *)
Lemma nan_descriptor_is_kept :
  dict_get (@CalcMolDescriptors Demo.toolkit "C[n+]1ccccc1") "MaxPartialCharge"
  = Some (VFloat nan)
  ∧ ∃ result,
      (@IonFeaturizer_call Demo.toolkit Demo.float_of_str RDKitIonFeaturizer
         Demo.methylpyridinium memory.empty).1 = Ok result
      ∧ result !! "MaxPartialCharge" = Some nan
      ∧ result !! "MaxPartialCharge" ≠ None.
Proof.
  split; [reflexivity|].
  exists (not_None_items
            (coerced Demo.float_of_str (@CalcMolDescriptors Demo.toolkit "C[n+]1ccccc1"))).
  split; [|split].
  - vm_compute. reflexivity.
  - vm_compute. reflexivity.
  - vm_compute. discriminate.
Qed.

(** ** IonicLiquidFeaturizer.__call__, mode A *)

Section mode_A_properties.
Context `{T : Toolkit} (float_of_str : string → option float).
Implicit Types (rule : CombiningRules.CombiningRule) (il : IonicLiquid)
  (cf af acc : gmap string float) (names : list string).

Lemma combine_loop_raises rule il cf af names acc :
  returns rule il →
  (∃ name, name ∈ names ∧ cf !! name = None) →
  ∃ name, combine_loop rule il cf af names acc = Raise (KeyError name)
          ∧ name ∈ names ∧ cf !! name = None.
Proof.
  intros Hrule. revert acc.
  induction names as [|n0 names IH]; intros acc (name & Hin & Hname).
  - by apply elem_of_nil in Hin.
  - simpl. destruct (cf !! n0) as [c|] eqn:Hc.
    + assert (Hrest : ∃ name, name ∈ names ∧ cf !! name = None).
      { apply elem_of_cons in Hin as [->|Hin]; [congruence|eauto]. }
      destruct (af !! n0) as [a|].
      * destruct (Hrule c a) as [v ->]. simpl.
        destruct (IH (<[n0:=v]> acc) Hrest) as (n & -> & Hn & Hcf).
        exists n. by repeat split; [right|].
      * destruct (IH acc Hrest) as (n & -> & Hn & Hcf).
        exists n. by repeat split; [right|].
    + exists n0. by repeat split; [left|].
Qed.

Lemma combine_loop_returns rule il cf af names acc :
  returns rule il →
  (∀ name, name ∈ names → is_Some (cf !! name)) →
  ∃ result,
    combine_loop rule il cf af names acc = Ok result
    ∧ ∀ name,
        result !! name
        = match (if decide (name ∈ names)
                 then combined_value rule il cf af name else None) with
          | Some v => Some v
          | None => acc !! name
          end.
Proof.
  intros Hrule. revert acc. induction names as [|n0 names IH]; intros acc Hcf.
  - exists acc. split; [done|]. intros name.
    destruct (decide (name ∈ [])) as [Hin|_]; [by apply elem_of_nil in Hin|done].
  - simpl. destruct (Hcf n0) as [c Hc]; [left|]. rewrite Hc.
    assert (Hcf' : ∀ name, name ∈ names → is_Some (cf !! name)).
    { intros name Hin. apply Hcf. by right. }
    destruct (af !! n0) as [a|] eqn:Ha.
    + destruct (Hrule c a) as [v Hv]. rewrite Hv. simpl.
      destruct (IH (<[n0:=v]> acc) Hcf') as (result & -> & Hresult).
      exists result. split; [done|]. intros name. rewrite Hresult.
      destruct (decide (name = n0)) as [->|Hne].
      * rewrite lookup_insert_eq.
        assert (combined_value rule il cf af n0 = Some v) as ->.
        { unfold combined_value. rewrite Hc, Ha. simpl. by rewrite Hv. }
        rewrite (decide_True (P := n0 ∈ n0 :: names)) by left.
        by destruct (decide (n0 ∈ names)).
      * rewrite lookup_insert_ne by done.
        destruct (decide (name ∈ names)) as [Hin|Hnin].
        -- by rewrite (decide_True (P := name ∈ n0 :: names)) by (by right).
        -- rewrite (decide_False (P := name ∈ n0 :: names)); [done|].
           intros Hcons%elem_of_cons. by destruct Hcons.
    + destruct (IH acc Hcf') as (result & -> & Hresult).
      exists result. split; [done|]. intros name. rewrite Hresult.
      destruct (decide (name = n0)) as [->|Hne].
      * assert (combined_value rule il cf af n0 = None) as ->.
        { unfold combined_value. rewrite Hc, Ha. done. }
        rewrite (decide_True (P := n0 ∈ n0 :: names)) by left.
        by destruct (decide (n0 ∈ names)).
      * destruct (decide (name ∈ names)) as [Hin|Hnin].
        -- by rewrite (decide_True (P := name ∈ n0 :: names)) by (by right).
        -- rewrite (decide_False (P := name ∈ n0 :: names)); [done|].
           intros Hcons%elem_of_cons. by destruct Hcons.
Qed.

(** Mode A on the two feature mappings, for a rule that returns on every
    pair of values. *)
Lemma combine_mode_A rule il cf af :
  returns rule il →
  (dom af ⊆ dom cf →
   ∃ result,
     combine (Some rule) il cf af = Ok result
     ∧ ∀ name v,
         result !! name = Some v
         ↔ ∃ c a, cf !! name = Some c ∧ af !! name = Some a ∧ rule il c a = Ok v)
  ∧ (∀ name, name ∈ dom af → name ∉ dom cf →
     ∃ missing,
       combine (Some rule) il cf af = Raise (KeyError missing)
       ∧ missing ∈ dom af ∧ missing ∉ dom cf).
Proof.
  intros Hrule. unfold combine. split.
  - intros Hsub.
    destruct (combine_loop_returns rule il cf af (elements (dom cf ∪ dom af)) ∅ Hrule)
      as (result & Hres & Hlookup).
    { intros name Hin%elem_of_elements%elem_of_union. apply elem_of_dom.
      destruct Hin as [Hc|Ha]; [done|by apply Hsub]. }
    exists result. split; [done|]. intros name v. rewrite Hlookup, lookup_empty.
    assert (Hcv : combined_value rule il cf af name = Some v
                  ↔ ∃ c a, cf !! name = Some c ∧ af !! name = Some a
                           ∧ rule il c a = Ok v).
    { unfold combined_value. split.
      - destruct (cf !! name) as [c|]; [|done]. destruct (af !! name) as [a|]; [|done].
        simpl. destruct (rule il c a) as [v'|] eqn:Hv; [|done].
        intros [= ->]. eauto.
      - intros (c & a & -> & -> & Hv). simpl. by rewrite Hv. }
    destruct (decide (name ∈ elements (dom cf ∪ dom af))) as [Hin|Hnin].
    + rewrite <- Hcv. by destruct (combined_value rule il cf af name).
    + split; [done|]. intros (c & a & Hc & Ha & _). destruct Hnin.
      apply elem_of_elements, elem_of_union. left. apply elem_of_dom. eauto.
  - intros name Haf Hcf.
    destruct (combine_loop_raises rule il cf af (elements (dom cf ∪ dom af)) ∅ Hrule)
      as (missing & Hres & Hin & Hmissing).
    { exists name. split; [set_solver|]. by apply not_elem_of_dom. }
    exists missing. split; [done|].
    apply not_elem_of_dom in Hmissing.
    apply elem_of_elements, elem_of_union in Hin. split; [|done]. by destruct Hin.
Qed.

Lemma IonicLiquidFeaturizer_call_combine (self : IonicLiquidFeaturizer) il
  (t t1 t2 : Memory) cf af :
  IonFeaturizer_call float_of_str (ion_featurizer self) (cation il) t = (Ok cf, t1) →
  IonFeaturizer_call float_of_str (ion_featurizer self) (anion il) t1 = (Ok af, t2) →
  IonicLiquidFeaturizer_call float_of_str self il t
  = (combine (combining_rule self) il cf af, t2).
Proof. intros Hc Ha. unfold IonicLiquidFeaturizer_call. by rewrite Hc, Ha. Qed.

(** C1 (what the code does). Let the ion featurizer give the cation the
    features [cf] and the anion the features [af], and let the rule
    return on every pair of values.  When every name of [af] is a name of
    [cf], [__call__] returns exactly the names valued on both sides, each
    with its combined value: the names only the cation has are dropped.
    But a name only the anion has makes [__call__] raise [KeyError]
    instead of being dropped. *)
Theorem mode_A_raises_on_anion_only_name (self : IonicLiquidFeaturizer) rule il
  (t t1 t2 : Memory) cf af :
  combining_rule self = Some rule →
  returns rule il →
  IonFeaturizer_call float_of_str (ion_featurizer self) (cation il) t = (Ok cf, t1) →
  IonFeaturizer_call float_of_str (ion_featurizer self) (anion il) t1 = (Ok af, t2) →
  (dom af ⊆ dom cf →
   ∃ result,
     IonicLiquidFeaturizer_call float_of_str self il t = (Ok result, t2)
     ∧ ∀ name v,
         result !! name = Some v
         ↔ ∃ c a, cf !! name = Some c ∧ af !! name = Some a ∧ rule il c a = Ok v)
  ∧ (∀ name, name ∈ dom af → name ∉ dom cf →
     ∃ missing,
       IonicLiquidFeaturizer_call float_of_str self il t
       = (Raise (KeyError missing), t2)
       ∧ missing ∈ dom af ∧ missing ∉ dom cf).
Proof.
  intros Hself Hrule Hc Ha.
  rewrite (IonicLiquidFeaturizer_call_combine _ _ _ _ _ _ _ Hc Ha), Hself.
  destruct (combine_mode_A rule il cf af Hrule) as [Hok Hraise]. split.
  - intros Hsub. destruct (Hok Hsub) as (result & -> & Hlookup). eauto.
  - intros name Haf Hcf. destruct (Hraise name Haf Hcf) as (missing & -> & Hm). eauto.
Qed.

End mode_A_properties.

Lemma sum_returns `{T : Toolkit} (il : IonicLiquid) : returns CombiningRules.sum il.
Proof. intros c a. by eexists. Qed.

(** The example of the design document: [{"A": 1.0}] for the cation and
    [{"A": 2.0, "B": 3.0}] for the anion under [sum] raise [KeyError] on
    "B". *)
Lemma mode_A_raises_on_anion_only_name_witness :
  @IonicLiquidFeaturizer_call Demo.toolkit Demo.float_of_str
    (mkIonicLiquidFeaturizer Demo.table_featurizer (Some CombiningRules.sum))
    Demo.methylpyridinium_chloride memory.empty
  = (Raise (KeyError "B"), memory.empty).
Proof.
  destruct (@mode_A_raises_on_anion_only_name Demo.toolkit Demo.float_of_str
              (mkIonicLiquidFeaturizer Demo.table_featurizer (Some CombiningRules.sum))
              CombiningRules.sum Demo.methylpyridinium_chloride
              memory.empty memory.empty memory.empty
              {[ "A" := 1%float ]} {[ "A" := 2%float; "B" := 3%float ]})
    as [_ Hraise].
  - reflexivity.
  - apply sum_returns.
  - vm_compute. reflexivity.
  - vm_compute. reflexivity.
  - destruct (Hraise "B") as (missing & Hres & Haf & Hcf); [set_solver|set_solver|].
    apply elem_of_dom in Haf as [v Hv]. apply not_elem_of_dom in Hcf.
    destruct (decide (missing = "B")) as [->|HB]; [exact Hres|].
    destruct (decide (missing = "A")) as [->|HA];
      [by rewrite lookup_singleton_eq in Hcf|].
    by rewrite lookup_insert_ne, lookup_singleton_ne in Hv.
Defined.

(** With the sides exchanged nothing is raised: "B", which only the
    cation has, is dropped and "A" is 3.0; and without a rule (mode B)
    every feature is kept under the name of its side. *)
Example modes_on_the_example :
  (∃ result,
     @combine Demo.toolkit (Some CombiningRules.sum) Demo.methylpyridinium_chloride
       {[ "A" := 2%float; "B" := 3%float ]} {[ "A" := 1%float ]} = Ok result
     ∧ result !! "A" = Some 3%float ∧ result !! "B" = None)
  ∧ (@IonicLiquidFeaturizer_call Demo.toolkit Demo.float_of_str
       (mkIonicLiquidFeaturizer Demo.table_featurizer None)
       Demo.methylpyridinium_chloride memory.empty).1
    = Ok {[ "A_cation" := 1%float; "A_anion" := 2%float; "B_anion" := 3%float ]}.
Proof.
  split; [|vm_compute; reflexivity].
  eexists. split; [vm_compute; reflexivity|]. split; vm_compute; reflexivity.
Qed.

(** * Further properties of the code *)

(** ** Construction: when it succeeds, and with what *)

Section construction_properties.
Context `{T : Toolkit}.

Lemma new_succeeds_iff (cls : ion_class) (notation : string) (mol : Mol) (ion : Ion) :
  new cls notation mol = Ok ion
  ↔ charge_admitted cls (GetFormalCharge mol) ∧ ion = mkIon cls notation mol.
Proof.
  destruct (Z.lt_trichotomy (GetFormalCharge mol) 0) as [Hneg|[Hzero|Hpos]].
  - destruct cls; simpl.
    + rewrite new_Ion_ok by lia. split; [intros [= <-]; split; [lia|done]|].
      by intros [_ ->].
    + rewrite new_Cation_negative by done. split; [done|]. intros [? _]. lia.
    + rewrite new_Anion_ok by done. split; [by intros [= <-]|]. by intros [_ ->].
  - rewrite new_zero_charge by done. split; [done|].
    intros [Hadm _]. destruct cls; simpl in Hadm; lia.
  - destruct cls; simpl.
    + rewrite new_Ion_ok by lia. split; [intros [= <-]; split; [lia|done]|].
      by intros [_ ->].
    + rewrite new_Cation_ok by done. split; [by intros [= <-]|]. by intros [_ ->].
    + rewrite new_Anion_positive by done. split; [done|]. intros [? _]. lia.
Qed.

Lemma new_error (cls : ion_class) (notation : string) (mol : Mol) (e : exception) :
  new cls notation mol = Raise e → ∃ msg, e = InvalidChargeError msg.
Proof.
  destruct (Z.lt_trichotomy (GetFormalCharge mol) 0) as [Hneg|[Hzero|Hpos]].
  - destruct cls.
    + by rewrite new_Ion_ok by lia.
    + rewrite new_Cation_negative by done. intros [= <-]. eauto.
    + by rewrite new_Anion_ok.
  - rewrite new_zero_charge by done. intros [= <-]. eauto.
  - destruct cls.
    + by rewrite new_Ion_ok by lia.
    + by rewrite new_Cation_ok.
    + rewrite new_Anion_positive by done. intros [= <-]. eauto.
Qed.

(** X1. [from_smiles] of a class returns an ion exactly when the toolkit
    parses the notation to a structure whose charge the class admits
    (non-zero for [Ion], positive for [Cation], negative for [Anion]);
    the ion returned is of that class, holds that structure, and its
    notation is the canonical non-isomeric one of the structure, not the
    notation passed.  The only exceptions it raises are the toolkit's
    parse failure and [InvalidChargeError]. *)
Theorem from_smiles_succeeds_iff (cls : ion_class) (notation : string) :
  (∀ ion,
     from_smiles cls notation = Ok ion
     ↔ ∃ mol, MolFromSmiles notation = Some mol
              ∧ charge_admitted cls (GetFormalCharge mol)
              ∧ ion = mkIon cls (MolToSmiles mol false) mol)
  ∧ (∀ e, from_smiles cls notation = Raise e →
          e = ParseError ∨ ∃ msg, e = InvalidChargeError msg).
Proof.
  unfold from_smiles. destruct (MolFromSmiles notation) as [mol|]; split.
  - intros ion. rewrite new_succeeds_iff. split.
    + intros [Hadm ->]. by exists mol.
    + intros (mol' & [= <-] & Hadm & ->). done.
  - intros e He. right. by eapply new_error.
  - intros ion. split; [done|]. by intros (mol & ? & _).
  - intros e [= <-]. by left.
Qed.

(** What [IonicLiquid.from_smiles] does on the two fragments of a split. *)
Lemma IonicLiquid_from_smiles_cases (combined left right : string) :
  split "." combined = [left; right] →

    (∃ e, IonicLiquid_from_smiles combined = Raise e
          ∧ (e = ParseError ∨ ∃ msg, e = InvalidChargeError msg)
          ∧ ¬ (∃ ml mr, MolFromSmiles left = Some ml ∧ MolFromSmiles right = Some mr
                        ∧ ((0 < GetFormalCharge ml ∧ GetFormalCharge mr < 0)
                           ∨ (GetFormalCharge ml < 0 ∧ 0 < GetFormalCharge mr))))
    ∨ (∃ ml mr, MolFromSmiles left = Some ml ∧ MolFromSmiles right = Some mr
                ∧ ((0 < GetFormalCharge ml ∧ GetFormalCharge mr < 0
                    ∧ IonicLiquid_from_smiles combined = Ok (paired ml mr))
                   ∨ (GetFormalCharge ml < 0 ∧ 0 < GetFormalCharge mr
                      ∧ IonicLiquid_from_smiles combined = Ok (paired mr ml)))).
Proof.
  intros Hsplit.
  destruct (MolFromSmiles left) as [ml|] eqn:Hl.
    2:{ left. exists ParseError. split; [|split; [by left|]].
        - unfold IonicLiquid_from_smiles, from_smiles. by rewrite Hsplit, Hl.
        - by intros (? & ? & ? & _). }
    destruct (decide (GetFormalCharge ml = 0)) as [Hzl|Hnzl].
    { left. eexists. split; [|split; [right; eauto|]].
      - unfold IonicLiquid_from_smiles. rewrite Hsplit.
        rewrite (from_smiles_parsed _ _ _ Hl), new_zero_charge by done. done.
      - intros (ml' & mr' & [= <-] & _ & Hs). lia. }
    destruct (MolFromSmiles right) as [mr|] eqn:Hr.
    2:{ left. exists ParseError. split; [|split; [by left|]].
        - unfold IonicLiquid_from_smiles. rewrite Hsplit.
          rewrite (from_smiles_parsed _ _ _ Hl), new_Ion_ok by done. simpl.
          unfold from_smiles. by rewrite Hr.
        - by intros (? & ? & _ & ? & _). }
    destruct (decide (GetFormalCharge mr = 0)) as [Hzr|Hnzr].
    { left. eexists. split; [|split; [right; eauto|]].
      - unfold IonicLiquid_from_smiles. rewrite Hsplit.
        rewrite (from_smiles_parsed _ _ _ Hl), new_Ion_ok by done. simpl.
        rewrite (from_smiles_parsed _ _ _ Hr), new_zero_charge by done. done.
      - intros (ml' & mr' & _ & [= <-] & Hs). lia. }
    rewrite (IonicLiquid_from_smiles_parsed _ _ _ _ _ Hsplit Hl Hnzl Hr Hnzr).
    destruct (Z.ltb_spec (GetFormalCharge ml) 0) as [Hnl|Hpl].
    - destruct (decide (0 < GetFormalCharge mr)) as [Hpr|Hnr].
      + right. exists ml, mr. split; [done|]. split; [done|]. right.
        split; [lia|]. split; [lia|].
        rewrite new_Cation_ok, new_Anion_ok by done. done.
      + left. eexists. rewrite new_Cation_negative by lia. simpl.
        split; [done|]. split; [right; eauto|].
        intros (ml' & mr' & [= <-] & [= <-] & Hs). lia.
    - destruct (decide (GetFormalCharge mr < 0)) as [Hnr|Hpr].
      + right. exists ml, mr. split; [done|]. split; [done|]. left.
        split; [lia|]. split; [lia|].
        rewrite new_Cation_ok, new_Anion_ok by lia. done.
      + left. eexists. rewrite new_Cation_ok by lia. simpl.
        rewrite new_Anion_positive by lia. simpl.
        split; [done|]. split; [right; eauto|].
        intros (ml' & mr' & [= <-] & [= <-] & Hs). lia.
Qed.

(** X2. [IonicLiquid.from_smiles] returns an ionic liquid exactly when the
    notation splits on "." into two fragments that the toolkit parses to
    structures of opposite charge signs; the positive one is then the
    cation and the negative one the anion, each with its canonical
    notation.  It raises [ValueError] exactly when the split does not
    give two fragments, and otherwise only the toolkit's parse failure
    or [InvalidChargeError]. *)
Theorem IonicLiquid_from_smiles_succeeds_iff (combined : string) :
  (∀ il,
     IonicLiquid_from_smiles combined = Ok il
     ↔ ∃ left right ml mr,
         split "." combined = [left; right]
         ∧ MolFromSmiles left = Some ml ∧ MolFromSmiles right = Some mr
         ∧ ((0 < GetFormalCharge ml ∧ GetFormalCharge mr < 0 ∧ il = paired ml mr)
            ∨ (GetFormalCharge ml < 0 ∧ 0 < GetFormalCharge mr ∧ il = paired mr ml)))
  ∧ (IonicLiquid_from_smiles combined = Raise ValueError
     ↔ length (split "." combined) ≠ 2%nat)
  ∧ (∀ e, IonicLiquid_from_smiles combined = Raise e →
          e = ValueError ∨ e = ParseError ∨ ∃ msg, e = InvalidChargeError msg).
Proof.
  destruct (decide (length (split "." combined) = 2%nat)) as [Hlen|Hlen].
  2:{ rewrite (IonicLiquid_from_smiles_unpack _ Hlen). split; [|split].
      - intros il. split; [done|].
        intros (left & right & ml & mr & Hsplit & _). by rewrite Hsplit in Hlen.
      - done.
      - intros e [= <-]. by left. }
  destruct (split "." combined) as [|left [|right [|? ?]]] eqn:Hsplit; try done.
  clear Hlen.
  pose proof (IonicLiquid_from_smiles_cases _ _ _ Hsplit) as Hcases.
  split; [|split].
  - intros il. split.
    + intros Hok. destruct Hcases as [(e & He & _)|(ml & mr & Hl & Hr & Hs)];
        [congruence|].
      exists left, right, ml, mr. repeat split; try done.
      destruct Hs as [(? & ? & Heq)|(? & ? & Heq)]; [left|right];
        repeat split; try done; congruence.
    + intros (l & r & ml & mr & [= <- <-] & Hl & Hr & Hs).
      destruct Hcases as [(e & _ & _ & Hno)|(ml' & mr' & Hl' & Hr' & Hs')].
      * destruct Hno. exists ml, mr. repeat split; try done.
        destruct Hs as [(? & ? & _)|(? & ? & _)]; [left|right]; done.
      * simplify_eq. destruct Hs as [(? & ? & ->)|(? & ? & ->)],
          Hs' as [(? & ? & ->)|(? & ? & ->)]; try done; lia.
  - split; [|done]. intros Hve.
    destruct Hcases as [(e & He & [->|[msg ->]] & _)|(ml & mr & _ & _ & Hs)];
      try congruence.
    destruct Hs as [(_ & _ & Heq)|(_ & _ & Heq)]; congruence.
  - intros e He. right.
    destruct Hcases as [(e' & He' & Hkind & _)|(ml & mr & _ & _ & Hs)].
    + rewrite He' in He. by injection He as <-.
    + destruct Hs as [(_ & _ & Heq)|(_ & _ & Heq)]; congruence.
Qed.

Lemma IonicLiquid_from_smiles_paired (combined : string) (il : IonicLiquid) :
  IonicLiquid_from_smiles combined = Ok il →
  ∃ mc ma, 0 < GetFormalCharge mc ∧ GetFormalCharge ma < 0 ∧ il = paired mc ma.
Proof.
  intros Hok.
  destruct (decide (length (split "." combined) = 2%nat)) as [Hlen|Hlen].
  2:{ by rewrite (IonicLiquid_from_smiles_unpack _ Hlen) in Hok. }
  destruct (split "." combined) as [|left [|right [|? ?]]] eqn:Hsplit; try done.
  destruct (IonicLiquid_from_smiles_cases _ _ _ Hsplit)
    as [(e & He & _)|(ml & mr & _ & _ & Hs)]; [congruence|].
  destruct Hs as [(? & ? & Heq)|(? & ? & Heq)]; rewrite Heq in Hok;
    injection Hok as <-; eauto.
Qed.

(** C2 (amended). The code has no check of its own on the notation: the
    failure on a notation the toolkit rejects is the one the toolkit
    calls raise, which the model names [ParseError].  [from_smiles] of
    every class fails with it exactly on such a notation, whatever the
    class would say of a charge.  [IonicLiquid.from_smiles] fails with
    it exactly when the notation splits on "." into two fragments of
    which the left one is rejected, or the left one is an ion and the
    right one is rejected.  A rejected fragment in another place is not
    reached: the call fails first with [ValueError] unless there are two
    fragments, and with [InvalidChargeError] when the left fragment is
    neutral. *)
Theorem toolkit_failure_raised_iff (notation : string) :
  (∀ cls, from_smiles cls notation = Raise ParseError
          ↔ MolFromSmiles notation = None)
  ∧ (IonicLiquid_from_smiles notation = Raise ParseError
     ↔ ∃ left right,
         split "." notation = [left; right]
         ∧ (MolFromSmiles left = None
            ∨ ∃ ml, MolFromSmiles left = Some ml ∧ GetFormalCharge ml ≠ 0
                    ∧ MolFromSmiles right = None))
  ∧ (length (split "." notation) ≠ 2%nat →
     IonicLiquid_from_smiles notation = Raise ValueError)
  ∧ (∀ left right ml,
       split "." notation = [left; right] →
       MolFromSmiles left = Some ml → GetFormalCharge ml = 0 →
       IonicLiquid_from_smiles notation
       = Raise (InvalidChargeError "ions must have a non-zero charge")).
Proof.
  assert (Hneutral : ∀ left right ml,
    split "." notation = [left; right] →
    MolFromSmiles left = Some ml → GetFormalCharge ml = 0 →
    IonicLiquid_from_smiles notation
    = Raise (InvalidChargeError "ions must have a non-zero charge")).
  { intros left right ml Hsplit Hl Hz. unfold IonicLiquid_from_smiles.
    rewrite Hsplit, (from_smiles_parsed _ _ _ Hl), new_zero_charge by done. done. }
  split; [|split; [|split; [apply IonicLiquid_from_smiles_unpack|exact Hneutral]]].
  - intros cls. unfold from_smiles.
    destruct (MolFromSmiles notation) as [mol|]; [|done].
    split; [|done]. intros Hnew. by destruct (new_error _ _ _ _ Hnew).
  - split.
    + intros Hfail.
      destruct (decide (length (split "." notation) = 2%nat)) as [Hlen|Hlen].
      2:{ by rewrite (IonicLiquid_from_smiles_unpack _ Hlen) in Hfail. }
      destruct (split "." notation) as [|left [|right [|? ?]]] eqn:Hsplit; try done.
      exists left, right. split; [done|].
      destruct (MolFromSmiles left) as [ml|] eqn:Hl; [right|by left].
      exists ml. split; [done|].
      destruct (decide (GetFormalCharge ml = 0)) as [Hzl|Hnzl].
      { by rewrite (Hneutral _ _ _ eq_refl Hl Hzl) in Hfail. }
      split; [done|].
      destruct (MolFromSmiles right) as [mr|] eqn:Hr; [|done].
      destruct (decide (GetFormalCharge mr = 0)) as [Hzr|Hnzr].
      { unfold IonicLiquid_from_smiles in Hfail. rewrite Hsplit in Hfail.
        rewrite (from_smiles_parsed _ _ _ Hl), new_Ion_ok in Hfail by done.
        simpl in Hfail.
        by rewrite (from_smiles_parsed _ _ _ Hr), new_zero_charge in Hfail. }
      rewrite (IonicLiquid_from_smiles_parsed _ _ _ _ _ Hsplit Hl Hnzl Hr Hnzr) in Hfail.
      destruct (GetFormalCharge ml <? 0).
      * destruct (new CationClass (MolToSmiles mr false) mr) as [cat|e] eqn:Hcat;
          simpl in Hfail.
        -- destruct (new AnionClass (MolToSmiles ml false) ml) as [an|e] eqn:Han;
             simpl in Hfail; [done|].
           injection Hfail as ->. by destruct (new_error _ _ _ _ Han).
        -- injection Hfail as ->. by destruct (new_error _ _ _ _ Hcat).
      * destruct (new CationClass (MolToSmiles ml false) ml) as [cat|e] eqn:Hcat;
          simpl in Hfail.
        -- destruct (new AnionClass (MolToSmiles mr false) mr) as [an|e] eqn:Han;
             simpl in Hfail; [done|].
           injection Hfail as ->. by destruct (new_error _ _ _ _ Han).
        -- injection Hfail as ->. by destruct (new_error _ _ _ _ Hcat).
    + intros (left & right & Hsplit & [Hl|(ml & Hl & Hnz & Hr)]);
        unfold IonicLiquid_from_smiles; rewrite Hsplit.
      * unfold from_smiles. by rewrite Hl.
      * rewrite (from_smiles_parsed _ _ _ Hl), new_Ion_ok by done. simpl.
        unfold from_smiles. by rewrite Hr.
Qed.

(** X3. The combined notation is kept by a new parse: for an ionic liquid
    [il] that [IonicLiquid.from_smiles] returned, [from_smiles(il.smiles)]
    returns an ionic liquid with the notations of [il], cation and anion
    in their places, built on the structures of the new parse, provided
    the toolkit parses the canonical notation of each ion to a structure
    with that canonical notation and the same formal charge, and neither
    notation contains a "."; when one of them does contain a ".", it
    raises [ValueError] instead. *)
Theorem IonicLiquid_smiles_is_kept_by_a_new_parse (combined : string)
  (il : IonicLiquid) :
  IonicLiquid_from_smiles combined = Ok il →
  (∀ mc ma,
     MolFromSmiles (smiles (cation il)) = Some mc →
     MolToSmiles mc false = smiles (cation il) →
     GetFormalCharge mc = charge (cation il) →
     MolFromSmiles (smiles (anion il)) = Some ma →
     MolToSmiles ma false = smiles (anion il) →
     GetFormalCharge ma = charge (anion il) →
     length (split "." (smiles (cation il))) = 1%nat →
     length (split "." (smiles (anion il))) = 1%nat →
     IonicLiquid_from_smiles (IonicLiquid_smiles il) = Ok (paired mc ma)
     ∧ smiles (cation (paired mc ma)) = smiles (cation il)
     ∧ smiles (anion (paired mc ma)) = smiles (anion il)
     ∧ IonicLiquid_smiles (paired mc ma) = IonicLiquid_smiles il)
  ∧ (length (split "." (smiles (cation il))) ≠ 1%nat
     ∨ length (split "." (smiles (anion il))) ≠ 1%nat →
     IonicLiquid_from_smiles (IonicLiquid_smiles il) = Raise ValueError).
Proof.
  intros Hok.
  destruct (IonicLiquid_from_smiles_paired _ _ Hok) as (mc0 & ma0 & Hpos & Hneg & ->).
  unfold IonicLiquid_smiles, paired, charge. simpl.
  assert (Hsplit : split "." (MolToSmiles mc0 false +:+ "." +:+ MolToSmiles ma0 false)
                   = (split "." (MolToSmiles mc0 false)
                      ++ split "." (MolToSmiles ma0 false))%list)
    by apply split_app.
  split.
  - intros mc ma Hc Hcs Hcc Ha Has Hac Hlc Hla.
    rewrite (split_singleton _ _ Hlc), (split_singleton _ _ Hla) in Hsplit.
    rewrite (IonicLiquid_from_smiles_parsed _ _ _ _ _ Hsplit Hc) by (done || lia).
    destruct (Z.ltb_spec (GetFormalCharge mc) 0); [lia|].
    rewrite new_Cation_ok, new_Anion_ok by lia. simpl.
    by rewrite Hcs, Has.
  - intros Hdots. apply IonicLiquid_from_smiles_unpack.
    rewrite Hsplit, length_app.
    pose proof (split_length_pos "." (MolToSmiles mc0 false)).
    pose proof (split_length_pos "." (MolToSmiles ma0 false)). lia.
Qed.

End construction_properties.

(** C2, as stated, fails: the demo toolkit rejects "C1CC" (an unclosed
    ring), yet next to the neutral fragment "CCO" the call fails with
    [InvalidChargeError], and on "C1CC" alone with [ValueError]. *)
Lemma rejected_fragment_fails_otherwise :
  @MolFromSmiles Demo.toolkit "C1CC" = None
  ∧ @IonicLiquid_from_smiles Demo.toolkit "CCO.C1CC"
    = Raise (InvalidChargeError "ions must have a non-zero charge")
  ∧ @IonicLiquid_from_smiles Demo.toolkit "CCO.C1CC" ≠ Raise ParseError
  ∧ @IonicLiquid_from_smiles Demo.toolkit "C1CC" = Raise ValueError
  ∧ @IonicLiquid_from_smiles Demo.toolkit "C1CC" ≠ Raise ParseError.
Proof. repeat split; (reflexivity || (vm_compute; discriminate)). Qed.

(** "[Cl-].[n+]1(C)ccccc1" gives 1-methylpyridinium chloride, whose notation
    "C[n+]1ccccc1.[Cl-]" gives an ionic liquid of that notation. *)
Lemma IonicLiquid_smiles_is_kept_by_a_new_parse_witness :
  @IonicLiquid_from_smiles Demo.toolkit "[Cl-].[n+]1(C)ccccc1"
  = Ok Demo.methylpyridinium_chloride
  ∧ @IonicLiquid_smiles Demo.toolkit Demo.methylpyridinium_chloride
    = "C[n+]1ccccc1.[Cl-]"
  ∧ ∃ il,
      @IonicLiquid_from_smiles Demo.toolkit "C[n+]1ccccc1.[Cl-]" = Ok il
      ∧ @IonicLiquid_smiles Demo.toolkit il = "C[n+]1ccccc1.[Cl-]".
Proof.
  split; [reflexivity|]. split; [reflexivity|].
  destruct (@IonicLiquid_smiles_is_kept_by_a_new_parse Demo.toolkit
              "[Cl-].[n+]1(C)ccccc1" Demo.methylpyridinium_chloride)
    as [Hkept _]; [reflexivity|].
  destruct (Hkept ("C[n+]1ccccc1" : @Mol Demo.toolkit) ("[Cl-]" : @Mol Demo.toolkit))
    as (Hcall & _ & _ & Hsmiles); try reflexivity.
  eexists. split; [exact Hcall|exact Hsmiles].
Defined.

(** ** min_abs and max_abs: order, symmetry and NaN *)

Lemma Prim2SF_inj (x y : float) : Prim2SF x = Prim2SF y → x = y.
Proof.
  intros Heq. rewrite <- (SF2Prim_Prim2SF x), <- (SF2Prim_Prim2SF y). by rewrite Heq.
Qed.

Lemma float_ltb_nan_r (x : float) : (x <? nan)%float = false.
Proof.
  rewrite FloatAxioms.ltb_spec. change (Prim2SF nan) with S754_nan.
  unfold SFltb. by destruct (Prim2SF x).
Qed.

Lemma float_ltb_nan_l (x : float) : (nan <? x)%float = false.
Proof. rewrite FloatAxioms.ltb_spec. by change (Prim2SF nan) with S754_nan. Qed.

Lemma float_abs_nonneg (x : float) :
  is_nan x = false → (0 <=? abs x)%float = true.
Proof.
  intros Hx%is_nan_false. rewrite FloatAxioms.leb_spec, FloatAxioms.abs_spec.
  change (Prim2SF 0) with (S754_zero false).
  destruct (Prim2SF x) as [s|s| |s m e]; done.
Qed.

(** Two absolute values that compare equal are the same float. *)
Lemma float_abs_compare_Eq (x y : float) :
  SFcompare (Prim2SF (abs x)) (Prim2SF (abs y)) = Some Eq → abs x = abs y.
Proof.
  intros Hcmp. apply Prim2SF_inj. revert Hcmp. rewrite !FloatAxioms.abs_spec.
  destruct (Prim2SF x) as [sx|sx| |sx mx ex], (Prim2SF y) as [sy|sy| |sy my ey];
    simpl; try done.
  destruct (Z.compare_spec ex ey) as [->| |]; try done.
  intros [= Hm]. apply Pcompare_Eq_eq in Hm. by subst.
Qed.

Lemma py_min_abs_comm (x y : float) :
  is_nan x = false → is_nan y = false →
  py_min (abs x) (abs y) = py_min (abs y) (abs x).
Proof.
  intros Hx Hy. rewrite <- (is_nan_abs x) in Hx. rewrite <- (is_nan_abs y) in Hy.
  apply is_nan_false in Hx, Hy.
  pose proof (float_abs_compare_Eq x y) as Heq.
  unfold py_min. rewrite !FloatAxioms.ltb_spec. unfold SFltb.
  rewrite (SFcompare_antisym (Prim2SF (abs x)) (Prim2SF (abs y))).
  destruct (SFcompare_total _ _ Hx Hy) as [c Hc]. rewrite Hc in *. simpl.
  destruct c; simpl; [by apply Heq|done|done].
Qed.

Lemma py_max_abs_comm (x y : float) :
  is_nan x = false → is_nan y = false →
  py_max (abs x) (abs y) = py_max (abs y) (abs x).
Proof.
  intros Hx Hy. rewrite <- (is_nan_abs x) in Hx. rewrite <- (is_nan_abs y) in Hy.
  apply is_nan_false in Hx, Hy.
  pose proof (float_abs_compare_Eq x y) as Heq.
  unfold py_max. rewrite !FloatAxioms.ltb_spec. unfold SFltb.
  rewrite (SFcompare_antisym (Prim2SF (abs x)) (Prim2SF (abs y))).
  destruct (SFcompare_total _ _ Hx Hy) as [c Hc]. rewrite Hc in *. simpl.
  destruct c; simpl; [by apply Heq|done|done].
Qed.

Lemma py_min_le_py_max (x y : float) :
  is_nan x = false → is_nan y = false → (py_min x y <=? py_max x y)%float = true.
Proof.
  intros Hx Hy. unfold py_min, py_max.
  destruct (y <? x)%float eqn:Hyx, (x <? y)%float eqn:Hxy.
  - by apply float_leb_refl.
  - by apply float_ltb_leb.
  - by apply float_ltb_leb.
  - by apply float_leb_refl.
Qed.

Section min_max_properties.
Context `{T : Toolkit}.
Import CombiningRules.

(** X4. For two values neither of which is NaN, [min_abs] and [max_abs]
    do not depend on which value is the cation's and which the anion's,
    [min_abs] is at least 0 and at most [max_abs].  With a NaN they do
    depend on the side: a NaN cation value gives NaN, while a NaN anion
    value is ignored and the absolute cation value is returned. *)
Theorem min_abs_max_abs_order (ionic_liquid : IonicLiquid) (c a : float) :
  (is_nan c = false → is_nan a = false →
   ∃ lo hi,
     min_abs ionic_liquid c a = Ok lo ∧ min_abs ionic_liquid a c = Ok lo
     ∧ max_abs ionic_liquid c a = Ok hi ∧ max_abs ionic_liquid a c = Ok hi
     ∧ (0 <=? lo)%float = true ∧ (lo <=? hi)%float = true)
  ∧ min_abs ionic_liquid nan a = Ok nan
  ∧ max_abs ionic_liquid nan a = Ok nan
  ∧ min_abs ionic_liquid c nan = Ok (abs c)
  ∧ max_abs ionic_liquid c nan = Ok (abs c).
Proof.
  split; [|repeat split].
  - intros Hc Ha. exists (py_min (abs c) (abs a)), (py_max (abs c) (abs a)).
    unfold min_abs, max_abs.
    rewrite (py_min_abs_comm a c), (py_max_abs_comm a c) by done.
    repeat split.
    + destruct (py_min_least (abs c) (abs a)) as [[-> | ->] _];
        rewrite ?is_nan_abs; try done; by apply float_abs_nonneg.
    + apply py_min_le_py_max; by rewrite is_nan_abs.
  - unfold min_abs, py_min. change (abs nan) with nan. by rewrite float_ltb_nan_r.
  - unfold max_abs, py_max. change (abs nan) with nan. by rewrite float_ltb_nan_l.
  - unfold min_abs, py_min. change (abs nan) with nan. by rewrite float_ltb_nan_l.
  - unfold max_abs, py_max. change (abs nan) with nan. by rewrite float_ltb_nan_r.
Qed.

End min_max_properties.

(** The values -8.0 and 2.0, in both orders, and a NaN on either side. *)
Lemma min_abs_max_abs_order_witness :
  @CombiningRules.min_abs Demo.toolkit Demo.methylpyridinium_chloride (-8)%float 2%float
  = @CombiningRules.min_abs Demo.toolkit Demo.methylpyridinium_chloride 2%float (-8)%float
  ∧ @CombiningRules.max_abs Demo.toolkit Demo.methylpyridinium_chloride (-8)%float 2%float
    = @CombiningRules.max_abs Demo.toolkit Demo.methylpyridinium_chloride 2%float (-8)%float
  ∧ @CombiningRules.min_abs Demo.toolkit Demo.methylpyridinium_chloride nan 2%float
    = Ok nan
  ∧ @CombiningRules.min_abs Demo.toolkit Demo.methylpyridinium_chloride (-8)%float nan
    = Ok 8%float.
Proof.
  destruct (@min_abs_max_abs_order Demo.toolkit Demo.methylpyridinium_chloride
              (-8)%float 2%float) as (Hsym & _ & _ & Hnan_a & _).
  destruct (@min_abs_max_abs_order Demo.toolkit Demo.methylpyridinium_chloride
              (-8)%float 2%float) as (_ & Hnan_c & _).
  destruct (Hsym eq_refl eq_refl) as (lo & hi & Hmin & Hmin' & Hmax & Hmax' & _).
  split; [congruence|]. split; [congruence|]. split; [exact Hnan_c|exact Hnan_a].
Defined.

(** ** IonFeaturizer.__call__: repeated calls, overflow, the dict rewritten *)

Section repeated_featurization.
Context `{T : Toolkit} (float_of_str : string → option float).
Implicit Types (value : PyValue) (features : dict PyValue).

Lemma coerced_idempotent features :
  coerced float_of_str (coerced float_of_str features) = coerced float_of_str features.
Proof.
  unfold coerced. rewrite <- list_fmap_compose. apply list_fmap_ext.
  intros _ [name value] _. simpl. by rewrite coerced_value_idempotent.
Qed.

Lemma coerced_no_overflow features :
  no_overflow features → no_overflow (coerced float_of_str features).
Proof.
  intros Hno name z Hin.
  destruct (coerced_values float_of_str features name (VInt z) Hno Hin)
    as [?|[x ?]]; done.
Qed.

Lemma coerced_wf features : dict_wf features → dict_wf (coerced float_of_str features).
Proof. unfold dict_wf. by rewrite coerced_keys. Qed.

Lemma coerced_value_fixed value :
  float_or_None value → coerced_value float_of_str value = value.
Proof. by intros [-> | [x ->]]. Qed.

Lemma coerced_fixed features :
  no_overflow features →
  coerced float_of_str features = features ↔ Forall (fun e => float_or_None e.2) features.
Proof.
  intros Hno. split.
  - intros Heq. apply Forall_forall. intros [name value] Hin. simpl.
    rewrite <- Heq in Hin. by eapply coerced_values.
  - intros Hall. unfold coerced.
    induction features as [|[name value] features IH]; [done|].
    apply Forall_cons in Hall as [Hv Hall]. simpl in Hv.
    rewrite fmap_cons, coerced_value_fixed by done. f_equal. apply IH; [|done].
    intros k z Hin. apply (Hno k). by right.
Qed.

(** The loop on a dict with an integer beyond the range: the items before
    it are coerced, it and the items after it are left as they were. *)
Lemma coerce_loop_overflows (visited before after : dict PyValue)
  (name : string) (z : Z) :
  NoDup (visited ++ before ++ (name, VInt z) :: after)%list.*1 →
  no_overflow before →
  int_to_float z = Raise OverflowError →
  coerce_loop float_of_str (before ++ (name, VInt z) :: after)%list
    (visited ++ before ++ (name, VInt z) :: after)%list
  = (Raise OverflowError,
     (visited ++ coerced float_of_str before ++ (name, VInt z) :: after)%list).
Proof.
  intros Hnd Hno Hz. revert visited Hnd.
  induction before as [|[k v] before IH]; intros visited Hnd.
  - simpl. unfold coerce. simpl. by rewrite Hz.
  - simpl. rewrite coerce_returns.
    2:{ intros z' ->. apply (Hno k). left. }
    rewrite dict_set_middle.
    2:{ rewrite fmap_app in Hnd. apply NoDup_app in Hnd as (_ & Hdisj & _).
        intros Hin. apply (Hdisj _ Hin). simpl. left. }
    rewrite (cons_middle _ visited (before ++ _)).
    rewrite (cons_middle _ visited (coerced _ before ++ _)).
    rewrite !app_assoc. rewrite <- !(app_assoc _ before), <- !(app_assoc _ (coerced _ before)).
    apply IH.
    + intros k' z' Hin. apply (Hno k'). by right.
    + rewrite <- app_assoc. rewrite !fmap_app in *. simpl in *. exact Hnd.
Qed.

Lemma coerce_loop_overflows_whole (before after : dict PyValue)
  (name : string) (z : Z) :
  NoDup (before ++ (name, VInt z) :: after)%list.*1 →
  no_overflow before →
  int_to_float z = Raise OverflowError →
  coerce_loop float_of_str (before ++ (name, VInt z) :: after)%list
    (before ++ (name, VInt z) :: after)%list
  = (Raise OverflowError,
     (coerced float_of_str before ++ (name, VInt z) :: after)%list).
Proof. intros Hnd Hno Hz. by apply (coerce_loop_overflows []). Qed.

Lemma RDKit_featurize_content (ion : Ion) (t : Memory) :
  _featurize RDKitIonFeaturizer ion t
  = (Memoized (rdkit_mol ion) (rdkit_calc_mol_descriptors (rdkit_mol ion) t).1,
     (rdkit_calc_mol_descriptors (rdkit_mol ion) t).2).
Proof. simpl. by destruct (rdkit_calc_mol_descriptors (rdkit_mol ion) t). Qed.

Lemma write_through_twice (mol : Mol) (d : dict PyValue) (t : Memory) :
  memory.write_through mol d (memory.write_through mol d t)
  = memory.write_through mol d t.
Proof. unfold memory.write_through. simpl. by rewrite insert_insert_eq. Qed.

Lemma RDKit_detached_featurize_content (ion : Ion) (t : Memory) :
  _featurize RDKitIonFeaturizer_detached ion t
  = (Owned (rdkit_calc_mol_descriptors (rdkit_mol ion) t).1,
     (rdkit_calc_mol_descriptors (rdkit_mol ion) t).2).
Proof. simpl. by destruct (rdkit_calc_mol_descriptors (rdkit_mol ion) t). Qed.

(** What the table holds for the structure after a featurization depends
    on the cache: the coerced dict when the cache hands out the dict it
    stores, the dict as it was when it does not.  The mapping returned is
    the same. *)
Lemma cached_descriptors_after_featurization (ion : Ion) (t : Memory) :
  let mol := rdkit_mol ion in
  let present := (rdkit_calc_mol_descriptors mol t).1 in
  let shared := IonFeaturizer_call float_of_str RDKitIonFeaturizer ion t in
  let detached := IonFeaturizer_call float_of_str RDKitIonFeaturizer_detached ion t in
  dict_wf present → no_overflow present →
  shared = (Ok (not_None_items (coerced float_of_str present)),
            memory.write_through mol (coerced float_of_str present)
              (rdkit_calc_mol_descriptors mol t).2)
  ∧ detached = (Ok (not_None_items (coerced float_of_str present)),
                (rdkit_calc_mol_descriptors mol t).2)
  ∧ memory.entries shared.2 !! mol = Some (coerced float_of_str present)
  ∧ memory.entries detached.2 !! mol = Some present.
Proof.
  intros mol present shared detached Hwf Hno.
  assert (Hshared : shared
                    = (Ok (not_None_items (coerced float_of_str present)),
                       memory.write_through mol (coerced float_of_str present)
                         (rdkit_calc_mol_descriptors mol t).2)).
  { unfold shared. rewrite IonFeaturizer_call_returns;
      rewrite RDKit_featurize_content; done. }
  assert (Hdetached : detached
                      = (Ok (not_None_items (coerced float_of_str present)),
                         (rdkit_calc_mol_descriptors mol t).2)).
  { unfold detached. rewrite IonFeaturizer_call_returns;
      rewrite RDKit_detached_featurize_content; done. }
  split; [done|]. split; [done|]. rewrite Hshared, Hdetached. simpl. split.
  - by rewrite lookup_insert_eq.
  - unfold present, rdkit_calc_mol_descriptors. apply cache_stores.
Qed.

(** X5. Featurizing the same ion twice with the RDKit variant returns the
    same mapping both times, and the second call changes nothing and does
    not invoke the toolkit (integers beyond the float range apart),
    whether the cache hands out the dict it stores, which the first call
    then coerced in place and the second coerces to itself, or keeps it
    out of reach, so that the second call coerces the same values
    again. *)
Theorem featurization_is_repeatable_under_either_cache
  (self : IonFeaturizer) (ion : Ion) (t : Memory) :
  let present := (rdkit_calc_mol_descriptors (rdkit_mol ion) t).1 in
  let first := IonFeaturizer_call float_of_str self ion t in
  let second := IonFeaturizer_call float_of_str self ion first.2 in
  self = RDKitIonFeaturizer ∨ self = RDKitIonFeaturizer_detached →
  dict_wf present → no_overflow present →
  first.1 = Ok (not_None_items (coerced float_of_str present))
  ∧ second.1 = first.1
  ∧ second.2 = first.2
  ∧ memory.invocations second.2
    = memory.invocations (rdkit_calc_mol_descriptors (rdkit_mol ion) t).2.
Proof.
  intros present first second Hself Hwf Hno.
  set (mol := rdkit_mol ion) in *.
  set (t1 := (rdkit_calc_mol_descriptors mol t).2) in *.
  destruct (cached_descriptors_after_featurization ion t Hwf Hno)
    as (Hshared & Hdetached & _ & Hkept).
  fold mol present t1 in Hshared, Hdetached, Hkept.
  destruct Hself as [-> | ->].
  - assert (Hfirst : first
                     = (Ok (not_None_items (coerced float_of_str present)),
                        memory.write_through mol (coerced float_of_str present) t1))
      by exact Hshared.
    assert (Hhit : rdkit_calc_mol_descriptors mol first.2
                   = (coerced float_of_str present, first.2)).
    { unfold rdkit_calc_mol_descriptors. apply cache_hit.
      rewrite Hfirst. simpl. by rewrite lookup_insert_eq. }
    assert (Hsecond : second = (Ok (not_None_items (coerced float_of_str present)),
                                first.2)).
    { unfold second. rewrite IonFeaturizer_call_returns;
        rewrite RDKit_featurize_content; fold mol; rewrite Hhit; simpl;
        [|by apply coerced_wf|by apply coerced_no_overflow].
      rewrite coerced_idempotent. f_equal.
      rewrite Hfirst. simpl. apply write_through_twice. }
    rewrite Hsecond, Hfirst. done.
  - assert (Hfirst : first
                     = (Ok (not_None_items (coerced float_of_str present)), t1))
      by exact Hdetached.
    assert (Hhit : rdkit_calc_mol_descriptors mol first.2 = (present, first.2)).
    { unfold rdkit_calc_mol_descriptors. apply cache_hit. exact Hkept. }
    assert (Hsecond : second = (Ok (not_None_items (coerced float_of_str present)),
                                first.2)).
    { unfold second. rewrite IonFeaturizer_call_returns;
        rewrite RDKit_detached_featurize_content; fold mol; rewrite Hhit; simpl;
        done. }
    rewrite Hsecond, Hfirst. done.
Qed.



(** X7. What the loop of [__call__] does to the dict it iterates over.
    When no integer is beyond the float range, the dict keeps its keys
    in their order and each value is replaced by the float [float] gives
    it, or by [None] when [float] raises [TypeError] or [ValueError]; it
    is left as it was exactly when every value was a float or [None]
    already.  When the loop meets an integer beyond the range, it ends
    with [OverflowError] and leaves the dict half rewritten: the values
    before the integer replaced, the integer and the values after it as
    they were. *)
Theorem coercion_loop_rewrites_the_dict (features : dict PyValue) :
  dict_wf features →
  (no_overflow features →
   ∃ rewritten,
     coerce_loop float_of_str features features = (Ok tt, rewritten)
     ∧ rewritten.*1 = features.*1
     ∧ (∀ name value,
          dict_get features name = Some value →
          (∀ x, py_float float_of_str value = Ok x →
                dict_get rewritten name = Some (VFloat x))
          ∧ (py_float float_of_str value = Raise TypeError
             ∨ py_float float_of_str value = Raise ValueError →
             dict_get rewritten name = Some VNone))
     ∧ (rewritten = features ↔ Forall (fun e => float_or_None e.2) features))
  ∧ (∀ before after name z,
       features = (before ++ (name, VInt z) :: after)%list →
       no_overflow before →
       int_to_float z = Raise OverflowError →
       coerce_loop float_of_str features features
       = (Raise OverflowError,
          (coerced float_of_str before ++ (name, VInt z) :: after)%list)).
Proof.
  intros Hwf. split.
  - intros Hno. exists (coerced float_of_str features).
    split; [by apply coerce_loop_whole|]. split; [apply coerced_keys|]. split.
    + intros name value Hget.
      assert (Hentry : dict_get (coerced float_of_str features) name
                       = Some (coerced_value float_of_str value)).
      { apply dict_get_elem_of; [by apply coerced_wf|].
        apply elem_of_coerced. exists value. by rewrite <- dict_get_elem_of. }
      split.
      * intros x Hx. rewrite Hentry. f_equal. by apply coerced_value_float.
      * intros Hfail. by rewrite Hentry, coerced_value_None.
    + by apply coerced_fixed.
  - intros before after name z -> Hnob Hz.
    by apply coerce_loop_overflows_whole.
Qed.

End repeated_featurization.

(** 1-methylpyridinium twice, from an empty table, over a cache that
    keeps its dict out of reach: one invocation of the toolkit, the same
    mapping, the same table. *)
Lemma featurization_is_repeatable_under_either_cache_witness :
  let first :=
    @IonFeaturizer_call Demo.toolkit Demo.float_of_str RDKitIonFeaturizer_detached
      Demo.methylpyridinium memory.empty in
  let second :=
    @IonFeaturizer_call Demo.toolkit Demo.float_of_str RDKitIonFeaturizer_detached
      Demo.methylpyridinium first.2 in
  second.1 = first.1 ∧ second.2 = first.2
  ∧ memory.invocations second.2 = [("C[n+]1ccccc1" : @Mol Demo.toolkit)].
Proof.
  destruct (@featurization_is_repeatable_under_either_cache Demo.toolkit
              Demo.float_of_str RDKitIonFeaturizer_detached
              Demo.methylpyridinium memory.empty) as (_ & Hsame & Htable & Hlog).
  - right. reflexivity.
  - apply (bool_decide_unpack (NoDup _)). vm_compute. exact I.
  - apply no_overflowb_sound. reflexivity.
  - split; [exact Hsame|]. split; [exact Htable|exact Hlog].
Defined.


(** The descriptors of 1-methylpyridinium are rewritten, the text
    "aromatic" to [None]; the dict 3, 10^400, "x" is left as 3.0, 10^400,
    "x". *)
Lemma coercion_loop_rewrites_the_dict_witness :
  (∃ rewritten,
     coerce_loop Demo.float_of_str
       (@CalcMolDescriptors Demo.toolkit "C[n+]1ccccc1")
       (@CalcMolDescriptors Demo.toolkit "C[n+]1ccccc1") = (Ok tt, rewritten)
     ∧ dict_get rewritten "RingKind" = Some VNone
     ∧ dict_get rewritten "NumHDonors" = Some (VFloat 0))
  ∧ coerce_loop Demo.float_of_str Heavy.descriptors Heavy.descriptors
    = (Raise OverflowError,
       [ ("NumAtoms", VFloat 3); ("Huge", VInt (10 ^ 400)); ("Label", VStr "x") ]).
Proof.
  split.
  - destruct (coercion_loop_rewrites_the_dict Demo.float_of_str
                (@CalcMolDescriptors Demo.toolkit "C[n+]1ccccc1")) as [Hreturns _].
    { apply (bool_decide_unpack (NoDup _)). vm_compute. exact I. }
    destruct Hreturns as (rewritten & Hloop & _ & Hvalues & _).
    { apply no_overflowb_sound. reflexivity. }
    exists rewritten. split; [exact Hloop|]. split.
    + apply (Hvalues "RingKind" (VStr "aromatic")); [reflexivity|right; reflexivity].
    + apply (Hvalues "NumHDonors" (VInt 0)); reflexivity.
  - destruct (coercion_loop_rewrites_the_dict Demo.float_of_str Heavy.descriptors)
      as [_ Hraises].
    { apply (bool_decide_unpack (NoDup _)). vm_compute. exact I. }
    apply (Hraises [("NumAtoms", VInt 3)] [("Label", VStr "x")] "Huge" (10 ^ 400)).
    + reflexivity.
    + apply no_overflowb_sound. reflexivity.
    + vm_compute. reflexivity.
Defined.

(** ** IonicLiquidFeaturizer.__call__: mode B and empty sides *)

Lemma list_ascii_of_string_app (s1 s2 : string) :
  list_ascii_of_string (s1 +:+ s2)
  = (list_ascii_of_string s1 ++ list_ascii_of_string s2)%list.
Proof.
  induction s1 as [|c s1 IH]; [done|].
  change (c :: list_ascii_of_string (s1 +:+ s2)
          = c :: (list_ascii_of_string s1 ++ list_ascii_of_string s2)%list).
  by rewrite IH.
Qed.

Lemma list_ascii_of_string_inj (s1 s2 : string) :
  list_ascii_of_string s1 = list_ascii_of_string s2 → s1 = s2.
Proof.
  intros Heq. rewrite <- (string_of_list_ascii_of_string s1),
    <- (string_of_list_ascii_of_string s2). by rewrite Heq.
Qed.

(** A suffix can be cancelled. *)
Lemma string_app_inj_l (suffix s1 s2 : string) :
  s1 +:+ suffix = s2 +:+ suffix → s1 = s2.
Proof.
  intros Heq. apply list_ascii_of_string_inj.
  apply (f_equal list_ascii_of_string) in Heq.
  rewrite !list_ascii_of_string_app in Heq.
  by apply app_inj_2 in Heq as [? _].
Qed.

(** No name with the cation suffix is a name with the anion suffix. *)
Lemma cation_suffix_ne_anion_suffix (s1 s2 : string) :
  s1 +:+ "_cation" ≠ s2 +:+ "_anion".
Proof.
  intros Heq. apply (f_equal list_ascii_of_string) in Heq.
  rewrite !list_ascii_of_string_app in Heq.
  change (list_ascii_of_string "_cation")
    with (list_ascii_of_string "_ca" ++ list_ascii_of_string "tion")%list in Heq.
  change (list_ascii_of_string "_anion")
    with (list_ascii_of_string "_a" ++ list_ascii_of_string "nion")%list in Heq.
  rewrite !app_assoc in Heq. by apply app_inj_2 in Heq as [_ ?].
Qed.

Section mode_B_properties.
Context `{T : Toolkit}.
Implicit Types (cf af : gmap string float) (il : IonicLiquid).

Lemma renamed_keys (suffix : string) (m : gmap string float) :
  NoDup ((fun '(name, value) => (name +:+ suffix, value)) <$> map_to_list m).*1.
Proof.
  rewrite <- list_fmap_compose. apply (NoDup_fmap_2_strong _).
  - intros [n1 v1] [n2 v2] Hin1%elem_of_map_to_list Hin2%elem_of_map_to_list.
    simpl. intros Heq%string_app_inj_l. subst. f_equal. congruence.
  - apply NoDup_map_to_list.
Qed.

Lemma renamed_lookup (suffix : string) (m : gmap string float) (key : string)
  (v : float) :
  (list_to_map ((fun '(name, value) => (name +:+ suffix, value)) <$> map_to_list m)
     : gmap string float) !! key = Some v
  ↔ ∃ name, key = name +:+ suffix ∧ m !! name = Some v.
Proof.
  rewrite <- elem_of_list_to_map by apply renamed_keys.
  rewrite list_elem_of_fmap. split.
  - intros ([name value] & [= -> ->] & Hin%elem_of_map_to_list). eauto.
  - intros (name & -> & Hin). exists (name, v).
    split; [done|]. by apply elem_of_map_to_list.
Qed.

Lemma renamed_size (suffix : string) (m : gmap string float) :
  size (list_to_map ((fun '(name, value) => (name +:+ suffix, value))
                       <$> map_to_list m) : gmap string float)
  = size m.
Proof.
  rewrite map_size_list_to_map by apply renamed_keys.
  by rewrite length_fmap, length_map_to_list.
Qed.

(** X8. Without a combining rule (mode B) the mapping returned holds every
    cation feature under its name followed by "_cation" and every anion
    feature under its name followed by "_anion", with their values, and
    nothing else: no feature of either side is lost or overwritten. *)
Theorem mode_B_keeps_every_feature cf af il :
  ∃ result,
    combine None il cf af = Ok result
    ∧ (∀ name, result !! (name +:+ "_cation") = cf !! name)
    ∧ (∀ name, result !! (name +:+ "_anion") = af !! name)
    ∧ (∀ key v, result !! key = Some v →
         (∃ name, key = name +:+ "_cation" ∧ cf !! name = Some v)
         ∨ (∃ name, key = name +:+ "_anion" ∧ af !! name = Some v))
    ∧ size result = (size cf + size af)%nat.
Proof.
  exists (concatenate cf af). split; [done|].
  assert (Hdisj : ∀ key v w,
    (list_to_map ((fun '(name, value) => (name +:+ "_anion", value))
                    <$> map_to_list af) : gmap string float) !! key = Some v →
    (list_to_map ((fun '(name, value) => (name +:+ "_cation", value))
                    <$> map_to_list cf) : gmap string float) !! key = Some w →
    False).
  { intros key v w (na & -> & _)%renamed_lookup (nc & Heq & _)%renamed_lookup.
    symmetry in Heq. by apply cation_suffix_ne_anion_suffix in Heq. }
  assert (Hsome : ∀ key v,
    concatenate cf af !! key = Some v
    ↔ (∃ name, key = name +:+ "_cation" ∧ cf !! name = Some v)
      ∨ (∃ name, key = name +:+ "_anion" ∧ af !! name = Some v)).
  { intros key v. unfold concatenate. rewrite lookup_union_Some_raw.
    rewrite <- !renamed_lookup. split.
    - intros [Ha|[_ Hc]]; [by right|by left].
    - intros [Hc|Ha]; [|by left]. right. split; [|done].
      apply eq_None_not_Some. intros [w Hw]. by eapply Hdisj. }
  split; [|split; [|split]].
  - intros name. apply option_eq. intros v. rewrite Hsome. split.
    + intros [(name' & Heq%string_app_inj_l & Hv)|(name' & Heq & _)]; [by subst|].
      by apply cation_suffix_ne_anion_suffix in Heq.
    + intros Hv. left. eauto.
  - intros name. apply option_eq. intros v. rewrite Hsome. split.
    + intros [(name' & Heq & _)|(name' & Heq%string_app_inj_l & Hv)]; [|by subst].
      symmetry in Heq. by apply cation_suffix_ne_anion_suffix in Heq.
    + intros Hv. right. eauto.
  - intros key v. by rewrite Hsome.
  - unfold concatenate. rewrite map_size_disj_union.
    + rewrite !renamed_size. lia.
    + apply map_disjoint_spec. exact Hdisj.
Qed.

Lemma combine_loop_without_anion (rule : CombiningRules.CombiningRule) il cf
  (names : list string) (acc : gmap string float) :
  (∀ name, name ∈ names → is_Some (cf !! name)) →
  combine_loop rule il cf ∅ names acc = Ok acc.
Proof.
  induction names as [|n0 names IH]; intros Hcf; [done|].
  simpl. destruct (Hcf n0) as [c ->]; [left|]. rewrite lookup_empty.
  apply IH. intros name Hin. apply Hcf. by right.
Qed.

(** X9. Mode A when one side has no feature at all: with no anion
    feature the call returns the empty mapping, whatever the cation
    features and without consulting the rule; with no cation feature and
    at least one anion feature it raises [KeyError]. *)
Theorem mode_A_with_an_empty_side (rule : CombiningRules.CombiningRule) il cf af :
  combine (Some rule) il cf ∅ = Ok ∅
  ∧ (af ≠ ∅ →
     ∃ name, combine (Some rule) il ∅ af = Raise (KeyError name) ∧ name ∈ dom af).
Proof.
  unfold combine. split.
  - apply combine_loop_without_anion.
    intros name Hmem%elem_of_elements%elem_of_union. apply elem_of_dom.
    destruct Hmem as [Hmem|Hmem]; [done|]. by rewrite dom_empty_L in Hmem.
  - intros Hne.
    destruct (elements (dom (∅ : gmap string float) ∪ dom af)) as [|n0 names] eqn:Hnames.
    + apply elements_empty_inv in Hnames. destruct Hne.
      apply dom_empty_inv_L. set_solver.
    + exists n0. simpl. rewrite lookup_empty. split; [done|].
      assert (Hmem : n0 ∈ elements (dom (∅ : gmap string float) ∪ dom af)).
      { rewrite Hnames. left. }
      apply elem_of_elements, elem_of_union in Hmem.
      destruct Hmem as [Hmem|Hmem]; [by rewrite dom_empty_L in Hmem|done].
Qed.

End mode_B_properties.

(** A cation feature beside no anion feature, under a rule that would
    raise; an anion feature beside no cation feature. *)
Lemma mode_A_with_an_empty_side_witness :
  @combine Demo.toolkit (Some CombiningRules.mean_atom_count)
    Demo.methylpyridinium_chloride {[ "A" := 1%float ]} ∅ = Ok ∅
  ∧ ∃ name,
      @combine Demo.toolkit (Some CombiningRules.sum)
        Demo.methylpyridinium_chloride ∅ {[ "A" := 2%float ]}
      = Raise (KeyError name).
Proof.
  destruct (@mode_A_with_an_empty_side Demo.toolkit CombiningRules.mean_atom_count
              Demo.methylpyridinium_chloride {[ "A" := 1%float ]} ∅) as [Hempty _].
  destruct (@mode_A_with_an_empty_side Demo.toolkit CombiningRules.sum
              Demo.methylpyridinium_chloride ∅ {[ "A" := 2%float ]}) as [_ Hraise].
  split; [exact Hempty|].
  destruct Hraise as (name & Hname & _); [|by exists name].
  intros Heq. apply (f_equal (fun m : gmap string float => m !! "A")) in Heq.
  by rewrite lookup_singleton_eq, lookup_empty in Heq.
Defined.

(** ** ILMLDataset *)

Section dataset_properties.
Context {ILTEntry : Type}.
Variable entry_id : ILTEntry → string.
Variable ref_full : ILTEntry → string.
Abbreviation ILMLEntry := (@Dataset.ILMLEntry ILTEntry).
Abbreviation id := (Dataset.id entry_id).
Abbreviation get_entry := (Dataset.get_entry entry_id).
Abbreviation get_references := (Dataset.get_references entry_id ref_full).
Implicit Types (entries : list ILMLEntry) (entry : ILMLEntry) (wanted : string).

Lemma get_entry_Returns entries wanted entry :
  get_entry entries wanted = Dataset.Returns entry
  ↔ ∃ before after,
      entries = (before ++ entry :: after)%list
      ∧ id entry = wanted
      ∧ Forall (fun e => id e ≠ wanted) before.
Proof.
  induction entries as [|first entries IH]; simpl.
  - split; [done|]. intros (before & after & Heq & _). by destruct before.
  - destruct (String.eqb_spec (id first) wanted) as [Hid|Hid].
    + split.
      * intros [= <-]. exists [], entries. by repeat split.
      * intros (before & after & Heq & Hentry & Hbefore).
        destruct before as [|b before]; simplify_eq/=; [done|].
        by apply Forall_cons in Hbefore as [? _].
    + rewrite IH. split.
      * intros (before & after & -> & Hentry & Hbefore).
        exists (first :: before), after. repeat split; [done|by constructor].
      * intros (before & after & Heq & Hentry & Hbefore).
        destruct before as [|b before]; simplify_eq/=; try done.
        apply Forall_cons in Hbefore as [_ Hbefore]. by exists before, after.
Qed.

Lemma get_entry_Raises entries wanted (e : Dataset.error) :
  get_entry entries wanted = Dataset.Raises e
  ↔ e = Dataset.LookupError wanted ∧ Forall (fun x => id x ≠ wanted) entries.
Proof.
  induction entries as [|first entries IH]; simpl.
  - split; [by intros [= <-]|by intros [-> _]].
  - destruct (String.eqb_spec (id first) wanted) as [Hid|Hid].
    + split; [done|]. intros [_ Hall]. by apply Forall_cons in Hall as [? _].
    + rewrite IH. split; intros [-> Hall]; (split; [done|]).
      * by constructor.
      * by apply Forall_cons in Hall as [_ ?].
Qed.

(** X10. [get_entry] returns the first entry of the dataset whose id is the
    one asked for; it raises [LookupError], and nothing else, exactly
    when no entry has that id. *)
Theorem get_entry_first_match entries wanted :
  (∀ entry,
     get_entry entries wanted = Dataset.Returns entry
     ↔ ∃ before after,
         entries = (before ++ entry :: after)%list
         ∧ id entry = wanted
         ∧ Forall (fun e => id e ≠ wanted) before)
  ∧ (∀ e, get_entry entries wanted = Dataset.Raises e
          ↔ e = Dataset.LookupError wanted ∧ wanted ∉ id <$> entries).
Proof.
  split; [intros entry; apply get_entry_Returns|].
  intros e. rewrite get_entry_Raises.
  assert (Forall (fun x => id x ≠ wanted) entries ↔ wanted ∉ id <$> entries) as ->;
    [|done].
  rewrite Forall_forall. split.
  - intros Hall (x & -> & Hin)%list_elem_of_fmap. by apply (Hall x).
  - intros Hnot x Hin Hid. apply Hnot. apply list_elem_of_fmap. by exists x.
Qed.

Lemma get_references_snoc entries entry :
  get_references (entries ++ [entry])
  = <[id entry := ref_full (Dataset.ilt_entry entry)]> (get_references entries).
Proof. unfold Dataset.get_references. by rewrite foldl_app. Qed.

Lemma get_references_last entries wanted (r : string) :
  get_references entries !! wanted = Some r
  ↔ ∃ before entry after,
      entries = (before ++ entry :: after)%list
      ∧ id entry = wanted
      ∧ ref_full (Dataset.ilt_entry entry) = r
      ∧ Forall (fun e => id e ≠ wanted) after.
Proof.
  induction entries as [|last entries IH] using rev_ind.
  - split; [done|]. intros (before & ? & ? & Heq & _). by destruct before.
  - rewrite get_references_snoc, lookup_insert.
    destruct (decide (id last = wanted)) as [Hid|Hid].
    + split.
      * intros [= <-]. exists entries, last, []. by repeat split.
      * intros (before & entry & after & Heq & Hentry & <- & Hafter). f_equal.
        destruct after as [|a after _] using rev_ind.
        -- apply app_inj_tail in Heq as [_ ->]. done.
        -- rewrite app_comm_cons, app_assoc in Heq.
           apply app_inj_tail in Heq as [_ ->].
           apply Forall_app in Hafter as [_ Hlast].
           rewrite Forall_singleton in Hlast. by destruct Hlast.
    + rewrite IH. split.
      * intros (before & entry & after & -> & Hentry & Hr & Hafter).
        exists before, entry, (after ++ [last])%list.
        rewrite <- app_assoc. repeat split; try done.
        apply Forall_app. split; [done|]. by apply Forall_singleton.
      * intros (before & entry & after & Heq & Hentry & Hr & Hafter).
        destruct after as [|a after _] using rev_ind.
        -- apply app_inj_tail in Heq as [_ ->]. done.
        -- rewrite app_comm_cons, app_assoc in Heq.
           apply app_inj_tail in Heq as [-> ->].
           apply Forall_app in Hafter as [Hafter _]. by exists before, entry, after.
Qed.

(** X11. [get_references] maps each id of the dataset to the citation of
    the last entry with that id, whereas [get_entry] returns the first
    one; when the ids of the entries are pairwise distinct the two agree:
    the citation recorded for an id is that of the entry [get_entry]
    returns for it. *)
Theorem get_references_last_entry_wins entries :
  (∀ wanted r,
     get_references entries !! wanted = Some r
     ↔ ∃ before entry after,
         entries = (before ++ entry :: after)%list
         ∧ id entry = wanted
         ∧ ref_full (Dataset.ilt_entry entry) = r
         ∧ Forall (fun e => id e ≠ wanted) after)
  ∧ (NoDup (id <$> entries) →
     ∀ wanted r,
       get_references entries !! wanted = Some r
       ↔ ∃ entry, get_entry entries wanted = Dataset.Returns entry
                  ∧ ref_full (Dataset.ilt_entry entry) = r).
Proof.
  split; [intros wanted r; apply get_references_last|].
  intros Hnd wanted r. rewrite get_references_last. split.
  - intros (before & entry & after & -> & Hentry & Hr & Hafter).
    exists entry. split; [|done]. apply get_entry_Returns.
    exists before, after. repeat split; try done.
    rewrite fmap_app, fmap_cons in Hnd.
    apply NoDup_app in Hnd as (_ & Hdisj & _).
    apply Forall_forall. intros x Hin Hid.
    apply (Hdisj (id x)); [apply list_elem_of_fmap; by exists x|].
    rewrite Hid, <- Hentry. left.
  - intros (entry & (before & after & -> & Hentry & Hbefore)%get_entry_Returns & Hr).
    exists before, entry, after. repeat split; try done.
    rewrite fmap_app, fmap_cons in Hnd.
    apply NoDup_app in Hnd as (_ & _ & Hnd). apply NoDup_cons in Hnd as [Hnotin _].
    apply Forall_forall. intros x Hin Hid. apply Hnotin.
    rewrite Hentry, <- Hid. apply list_elem_of_fmap. by exists x.
Qed.

Variable GetEntry : string → ILTEntry.
Variable process_ilt_entry : ILTEntry → Dataset.outcome ILTEntry.
Abbreviation populate := (Dataset.populate GetEntry process_ilt_entry).
Abbreviation kept := (Dataset.kept GetEntry process_ilt_entry).
Abbreviation processable := (Dataset.processable GetEntry process_ilt_entry).

Lemma populate_step (ilt_entry_id : string) (rest : list string) entries
  (t : memory.Table string ILTEntry) :
  memory.memo_invariant GetEntry t →
  populate (ilt_entry_id :: rest) entries t
  = match process_ilt_entry (GetEntry ilt_entry_id) with
    | Dataset.Returns processed =>
        populate rest (entries ++ [Dataset.mkILMLEntry processed])%list
          (memory.cache GetEntry ilt_entry_id t).2
    | Dataset.Raises (Dataset.ILTEntryProcessingError _) =>
        populate rest entries (memory.cache GetEntry ilt_entry_id t).2
    | Dataset.Raises e => (Dataset.Raises e, (memory.cache GetEntry ilt_entry_id t).2)
    end.
Proof.
  intros Hinv. simpl. destruct (cache_invariant GetEntry ilt_entry_id t Hinv) as [Hres _].
  destruct (memory.cache GetEntry ilt_entry_id t) as [fetched t1]. simpl in *.
  by rewrite Hres.
Qed.

(** X12. [_populate] appends to the entries, in the order of the ids, one
    entry for each id whose processing returns, and none for an id whose
    processing raises [ILTEntryProcessingError]: such an id is skipped
    and the loop goes on.  Any other exception of the processing is not
    caught: the first id that raises one ends [_populate] with it. *)
Theorem populate_skips_unprocessable (ilt_entry_ids : list string) entries
  (t : memory.Table string ILTEntry) :
  memory.memo_invariant GetEntry t →
  (Forall processable ilt_entry_ids →
   (populate ilt_entry_ids entries t).1
   = Dataset.Returns (entries ++ omap kept ilt_entry_ids)%list)
  ∧ (∀ before bad after e,
       ilt_entry_ids = (before ++ bad :: after)%list →
       Forall processable before →
       process_ilt_entry (GetEntry bad) = Dataset.Raises e →
       (∀ msg, e ≠ Dataset.ILTEntryProcessingError msg) →
       (populate ilt_entry_ids entries t).1 = Dataset.Raises e).
Proof.
  intros Hinv. split.
  - revert entries t Hinv.
    induction ilt_entry_ids as [|i ids IH]; intros entries t Hinv Hall.
    + simpl. by rewrite app_nil_r.
    + apply Forall_cons in Hall as [Hi Hall].
      pose proof (cache_invariant GetEntry i t Hinv) as [_ Hinv1].
      rewrite populate_step by done. simpl.
      unfold Dataset.processable, Dataset.kept in *.
      destruct (process_ilt_entry (GetEntry i)) as [processed|[]]; try done.
      * rewrite IH by done. by rewrite <- app_assoc.
      * by rewrite IH.
  - intros before bad after e -> Hbefore Hbad Hother.
    revert entries t Hinv.
    induction before as [|i before IH]; intros entries t Hinv.
    + simpl app. rewrite populate_step by done. rewrite Hbad.
      destruct e; try done. by destruct (Hother msg).
    + apply Forall_cons in Hbefore as [Hi Hbefore].
      pose proof (cache_invariant GetEntry i t Hinv) as [_ Hinv1].
      simpl app. rewrite populate_step by done.
      unfold Dataset.processable in Hi.
      destruct (process_ilt_entry (GetEntry i)) as [processed|[]]; try done;
        by apply IH.
Qed.

End dataset_properties.

(** Two entries with the id "a": the citation recorded is the second
    one's, the entry returned is the first. *)
Lemma get_references_last_entry_wins_witness :
  Dataset.get_references DemoDataset.entry_id DemoDataset.ref_full
    [ Dataset.mkILMLEntry ("a", "first"); Dataset.mkILMLEntry ("b", "other");
      Dataset.mkILMLEntry ("a", "second") ] !! "a" = Some "second"
  ∧ Dataset.get_entry DemoDataset.entry_id
      [ Dataset.mkILMLEntry ("a", "first"); Dataset.mkILMLEntry ("b", "other");
        Dataset.mkILMLEntry ("a", "second") ] "a"
    = Dataset.Returns (Dataset.mkILMLEntry ("a", "first"))
  ∧ Dataset.get_references DemoDataset.entry_id DemoDataset.ref_full
      [ Dataset.mkILMLEntry ("a", "first"); Dataset.mkILMLEntry ("b", "other") ] !! "b"
    = Some "other".
Proof.
  split; [|split; [reflexivity|]].
  - destruct (@get_references_last_entry_wins _ DemoDataset.entry_id DemoDataset.ref_full
                [ Dataset.mkILMLEntry ("a", "first"); Dataset.mkILMLEntry ("b", "other");
                  Dataset.mkILMLEntry ("a", "second") ]) as [Hlast _].
    apply Hlast.
    exists [ Dataset.mkILMLEntry ("a", "first"); Dataset.mkILMLEntry ("b", "other") ],
      (Dataset.mkILMLEntry ("a", "second")), [].
    repeat split. constructor.
  - destruct (@get_references_last_entry_wins _ DemoDataset.entry_id DemoDataset.ref_full
                [ Dataset.mkILMLEntry ("a", "first"); Dataset.mkILMLEntry ("b", "other") ])
      as [_ Hagree].
    apply Hagree.
    + apply (bool_decide_unpack (NoDup _)). vm_compute. exact I.
    + exists (Dataset.mkILMLEntry ("b", "other")). split; reflexivity.
Defined.

(** The ids "a", "mix", "b": the entry "mix" is skipped; with "bad" in its
    place the population fails. *)
Lemma populate_skips_unprocessable_witness :
  (Dataset.populate DemoDataset.GetEntry DemoDataset.process_ilt_entry
     ["a"; "mix"; "b"] [] memory.empty).1
  = Dataset.Returns [ Dataset.mkILMLEntry ("a", "ref. of a");
                      Dataset.mkILMLEntry ("b", "ref. of b") ]
  ∧ (Dataset.populate DemoDataset.GetEntry DemoDataset.process_ilt_entry
       ["a"; "bad"; "b"] [] memory.empty).1
    = Dataset.Raises (Dataset.OtherError ValueError).
Proof.
  split.
  - destruct (@populate_skips_unprocessable _ DemoDataset.GetEntry
                DemoDataset.process_ilt_entry ["a"; "mix"; "b"] [] memory.empty
                (memo_invariant_empty _)) as [Hok _].
    apply Hok. repeat constructor.
  - destruct (@populate_skips_unprocessable _ DemoDataset.GetEntry
                DemoDataset.process_ilt_entry ["a"; "bad"; "b"] [] memory.empty
                (memo_invariant_empty _)) as [_ Hfail].
    apply (Hfail ["a"] "bad" ["b"]); [reflexivity|repeat constructor|reflexivity|done].
Defined.

(** ** The RDKit variant under a combining rule *)

Section RDKit_mode_A.
Context `{T : Toolkit} (float_of_str : string → option float).

Lemma not_None_items_coerced_lookup (features : dict PyValue) (name : string)
  (x : float) :
  dict_wf features →
  not_None_items (coerced float_of_str features) !! name = Some x
  ↔ ∃ value, dict_get features name = Some value
             ∧ py_float float_of_str value = Ok x.
Proof.
  intros Hwf. rewrite not_None_items_lookup, elem_of_coerced.
  2:{ by apply coerced_wf. }
  split; intros (value & Hin & Hx); exists value.
  - split; [by apply dict_get_elem_of|by apply coerced_value_float].
  - split; [by apply dict_get_elem_of|]. symmetry. by apply coerced_value_float.
Qed.

Lemma accepted_dom (features : dict PyValue) (name : string) :
  dict_wf features →
  name ∈ dom (not_None_items (coerced float_of_str features)) ↔ accepted float_of_str features name.
Proof.
  intros Hwf. rewrite elem_of_dom. unfold accepted, is_Some. split.
  - intros [x (value & ? & ?)%not_None_items_coerced_lookup]; eauto.
  - intros (value & x & ? & ?). exists x. apply not_None_items_coerced_lookup; eauto.
Qed.

(** The first featurization of a structure: what it returns and what it
    leaves in the table for the other structures. *)
Lemma RDKit_first_call (ion : Ion) (t : Memory) :
  memory.entries t !! rdkit_mol ion = None →
  no_overflow (CalcMolDescriptors (rdkit_mol ion)) →
  ∃ t', IonFeaturizer_call float_of_str RDKitIonFeaturizer ion t
        = (Ok (not_None_items
                 (coerced float_of_str (CalcMolDescriptors (rdkit_mol ion)))), t')
        ∧ ∀ other, other ≠ rdkit_mol ion →
                   memory.entries t' !! other = memory.entries t !! other.
Proof.
  intros Hnew Hno. eexists. split.
  - rewrite IonFeaturizer_call_returns; rewrite RDKit_featurize_first by done;
      [done|apply CalcMolDescriptors_keys|done].
  - intros other Hne. simpl. by rewrite !lookup_insert_ne.
Qed.

(** X13. End to end, with the RDKit variant and a rule that returns on
    every pair of values (integers beyond the float range apart, on two
    structures not featurized before): if every descriptor [float]
    accepts for the anion is one it accepts for the cation, the call
    returns exactly the descriptors accepted for both, combined; if some
    descriptor is accepted for the anion and not for the cation (absent,
    [None], or not a number there), the call raises [KeyError]. *)
Theorem RDKit_mode_A_end_to_end (rule : CombiningRules.CombiningRule)
  (il : IonicLiquid) (t : Memory) :
  let raw_c := CalcMolDescriptors (rdkit_mol (cation il)) in
  let raw_a := CalcMolDescriptors (rdkit_mol (anion il)) in
  let call := IonicLiquidFeaturizer_call float_of_str
                (mkIonicLiquidFeaturizer RDKitIonFeaturizer (Some rule)) il t in
  returns rule il →
  memory.entries t !! rdkit_mol (cation il) = None →
  memory.entries t !! rdkit_mol (anion il) = None →
  rdkit_mol (cation il) ≠ rdkit_mol (anion il) →
  no_overflow raw_c → no_overflow raw_a →
  ((∀ name, accepted float_of_str raw_a name → accepted float_of_str raw_c name) →
   ∃ result,
     call.1 = Ok result
     ∧ ∀ name v,
         result !! name = Some v
         ↔ ∃ vc va c a,
             dict_get raw_c name = Some vc ∧ py_float float_of_str vc = Ok c
             ∧ dict_get raw_a name = Some va ∧ py_float float_of_str va = Ok a
             ∧ rule il c a = Ok v)
  ∧ (∀ name, accepted float_of_str raw_a name → ¬ accepted float_of_str raw_c name →
     ∃ missing, call.1 = Raise (KeyError missing)
                ∧ accepted float_of_str raw_a missing ∧ ¬ accepted float_of_str raw_c missing).
Proof.
  intros raw_c raw_a call Hrule Hnc Hna Hne Hoc Hoa.
  pose proof (CalcMolDescriptors_keys (rdkit_mol (cation il))) as Hwc.
  pose proof (CalcMolDescriptors_keys (rdkit_mol (anion il))) as Hwa.
  fold raw_c in Hwc. fold raw_a in Hwa.
  destruct (RDKit_first_call (cation il) t Hnc Hoc) as (t1 & Hfirst & Hother).
  assert (Hna1 : memory.entries t1 !! rdkit_mol (anion il) = None).
  { rewrite Hother; [done|]. intros Heq. by apply Hne. }
  destruct (RDKit_first_call (anion il) t1 Hna1 Hoa) as (t2 & Hsecond & _).
  fold raw_c in Hfirst. fold raw_a in Hsecond.
  set (cf := not_None_items (coerced float_of_str raw_c)) in *.
  set (af := not_None_items (coerced float_of_str raw_a)) in *.
  assert (Hcall : call = (combine (Some rule) il cf af, t2)).
  { unfold call.
    by rewrite (IonicLiquidFeaturizer_call_combine float_of_str _ il t t1 t2 cf af). }
  assert (Hfst : call.1 = combine (Some rule) il cf af) by (by rewrite Hcall).
  rewrite Hfst. clear Hcall Hfst.
  destruct (combine_mode_A float_of_str rule il cf af Hrule) as [Hok Hraise]. split.
  - intros Hsub. destruct Hok as (result & Hres & Hlookup).
    { intros name Hin. apply accepted_dom; [done|].
      apply Hsub. by apply accepted_dom in Hin. }
    exists result. split; [done|]. intros name v. rewrite Hlookup. split.
    + intros (c & a & Hc & Ha & Hv).
      apply not_None_items_coerced_lookup in Hc as (vc & ? & ?); [|done].
      apply not_None_items_coerced_lookup in Ha as (va & ? & ?); [|done].
      by exists vc, va, c, a.
    + intros (vc & va & c & a & ? & ? & ? & ? & Hv). exists c, a.
      split; [apply not_None_items_coerced_lookup; eauto|].
      split; [apply not_None_items_coerced_lookup; eauto|done].
  - intros name Ha Hc.
    destruct (Hraise name) as (missing & Hres & Hma & Hmc).
    + by apply accepted_dom.
    + intros Hin. apply Hc. by apply accepted_dom in Hin.
    + exists missing. split; [done|]. split.
      * by apply accepted_dom in Hma.
      * intros Hacc. apply Hmc. by apply accepted_dom.
Qed.

End RDKit_mode_A.

(** 1-methylpyridinium chloride: the descriptor "Ipc" is 0.0 for the
    chloride and undefined for the cation. *)
Lemma RDKit_mode_A_end_to_end_witness :
  ∃ missing,
    (@IonicLiquidFeaturizer_call Demo.toolkit Demo.float_of_str
       (mkIonicLiquidFeaturizer RDKitIonFeaturizer (Some CombiningRules.sum))
       Demo.methylpyridinium_chloride memory.empty).1
    = Raise (KeyError missing).
Proof.
  destruct (@RDKit_mode_A_end_to_end Demo.toolkit Demo.float_of_str
              CombiningRules.sum Demo.methylpyridinium_chloride memory.empty)
    as [_ Hraise].
  - apply sum_returns.
  - reflexivity.
  - reflexivity.
  - discriminate.
  - apply no_overflowb_sound. reflexivity.
  - apply no_overflowb_sound. reflexivity.
  - destruct (Hraise "Ipc") as (missing & Hres & _).
    + exists (VFloat 0), 0%float. split; reflexivity.
    + intros (value & x & Hget & Hx). vm_compute in Hget.
      injection Hget as <-. discriminate.
    + by exists missing.
Defined.
